(** * aiodesktop: the browser-side RPC peer ([bootstrap.js])

    A shallow embedding of the [Server] class of
    [aiodesktop/static/bootstrap.js], in its two revisions: the one in
    which the server sits behind a [Channel], and the one in which it
    holds the WebSocket itself and has [_on_abnormal_close].  The
    theorems that follow are about call/response correlation,
    registration of functions, and the handling of inbound frames.

    How the code is modelled.
    - Methods are computations in a state-and-exception monad over the
      [Server] record.  For an [async] method, [Err e] stands for "the
      promise returned by the method is rejected with [e]"; for a
      synchronous one, for "[e] is thrown".  State changes made before
      the exception persist, as in JavaScript.
    - Values on the wire are JSON values ([value]); a number is
      represented by its canonical decimal rendering.  Conversion to a
      string, which every template literal of the code performs, is
      partial: an object that has a key [toString] of its own (or an
      array that holds one) cannot be converted, and the conversion
      throws a TypeError.
    - [JSON.parse], [JSON.stringify], [console], [Date.now],
      [window.close] and the WebSocket are platform primitives.  An
      inbound message event is represented by what [JSON.parse] makes
      of its text.  What the server does to the outside is recorded,
      in order, in its [history]: each line written to the console,
      each object handed to [JSON.stringify] and [ws.send] (the socket
      is taken to accept it), each [window.close()]; so is, to tell
      what came first, each push on [_pendingReturns].
    - The registry [_fns] and the argument of [expose] are plain
      objects, modelled by their own properties in JavaScript's
      property order.  The code also reaches what [_fns] inherits from
      [Object.prototype]: [this._fns[name]] finds [toString],
      [constructor] and the like, [this._fns.hasOwnProperty] is a
      function of the registry itself once one is exposed under that
      name, and assigning to [__proto__] replaces the prototype.  The
      model follows the own properties only; every theorem that
      depends on a lookup or on the duplicate check says in its
      hypotheses which names and registries it is about ([inherited],
      [plain_key], [plain_registry]).
    - A handler is a function from the argument array to a
      completion; [await fn.apply(this, args)] is taken at its
      settlement.  What a handler itself does to the server it runs on
      is not part of its model, so the theorems about inbound calls
      speak of what the peer does, not of the whole state. *)

From Stdlib Require Import String Ascii List Arith NArith Bool Lia.
From Stdlib Require Import Decimal DecimalString DecimalN Permutation.
Import ListNotations.
Open Scope string_scope.

(** ** JavaScript values *)

#[local] Set Warnings "-register-all".

Inductive value : Type :=
| VUndefined
| VNull
| VBool (b : bool)
| VNum (repr : string)
| VStr (s : string)
| VArr (items : list value)
| VObj (props : list (string * value)).

(** What a [throw] carries, or a promise is rejected with. *)
Inductive exn : Type :=
| SyntaxError
| TypeError
| Thrown (v : value).

(** [a === b]; two objects or arrays met by the peer are never the same
    reference. *)
Definition strict_eq (a b : value) : bool :=
  match a, b with
  | VUndefined, VUndefined => true
  | VNull, VNull => true
  | VBool x, VBool y => Bool.eqb x y
  | VNum x, VNum y => String.eqb x y && negb (String.eqb x "NaN")
  | VStr x, VStr y => String.eqb x y
  | _, _ => false
  end.

(** [Number.prototype.toString(10)] on a non-negative integer below 1e21. *)
Definition toString10 (n : N) : string :=
  NilEmpty.string_of_uint (N.to_uint n).

(** [n += 1] on a double holding a non-negative integer: exact up to
    2^53, where the sum rounds back to 2^53. *)
Definition add1 (n : N) : N :=
  if (n <? 2 ^ 53)%N then (n + 1)%N else n.

(** ** Plain objects as ordered string-keyed maps

    An object is modelled by the list of its own properties in creation
    order, each key once; [hasOwnProperty] is the method that
    [Object.prototype] provides. *)

Section Objects.
Context {A : Type}.

Definition obj := list (string * A).

Fixpoint obj_get (k : string) (o : obj) : option A :=
  match o with
  | [] => None
  | (k', v) :: o' => if String.eqb k' k then Some v else obj_get k o'
  end.

Definition hasOwnProperty (o : obj) (k : string) : bool :=
  match obj_get k o with Some _ => true | None => false end.

(** [o[k] = v]: an existing key keeps its place, a new one goes last. *)
Fixpoint obj_set (k : string) (v : A) (o : obj) : obj :=
  match o with
  | [] => [(k, v)]
  | (k', v') :: o' =>
      if String.eqb k' k then (k', v) :: o' else (k', v') :: obj_set k v o'
  end.

(** An array index is the canonical rendering of an integer in
    [0, 2^32 - 2]. *)
Definition array_index (k : string) : option N :=
  match NilEmpty.uint_of_string k with
  | Some d =>
      let n := N.of_uint d in
      if String.eqb (toString10 n) k && (n <=? 4294967294)%N
      then Some n else None
  | None => None
  end.

Fixpoint insert_index (x : N * (string * A)) (l : list (N * (string * A)))
  : list (N * (string * A)) :=
  match l with
  | [] => [x]
  | y :: l' =>
      if (fst x <=? fst y)%N then x :: l else y :: insert_index x l'
  end.

Fixpoint index_props (o : obj) : list (N * (string * A)) :=
  match o with
  | [] => []
  | (k, v) :: o' =>
      match array_index k with
      | Some n => insert_index (n, (k, v)) (index_props o')
      | None => index_props o'
      end
  end.

Fixpoint named_props (o : obj) : obj :=
  match o with
  | [] => []
  | (k, v) :: o' =>
      match array_index k with
      | Some _ => named_props o'
      | None => (k, v) :: named_props o'
      end
  end.

(** [Object.entries(o)]: array indices in ascending order, then the
    other keys in creation order. *)
Definition Object_entries (o : obj) : list (string * A) :=
  map snd (index_props o) ++ named_props o.

Definition Object_keys (o : obj) : list string :=
  map fst (Object_entries o).

End Objects.

Arguments obj : clear implicits.

(** ** Conversion to a string *)

(** The strings of the elements of an array, as [join] takes them:
    [undefined] and [null] count as the empty string. *)
Definition strings_of (f : value -> option string)
  : list value -> option (list string) :=
  fix go (l : list value) : option (list string) :=
    match l with
    | [] => Some []
    | x :: l' =>
        match match x with
              | VUndefined | VNull => Some ""
              | _ => f x
              end, go l' with
        | Some a, Some b => Some (a :: b)
        | _, _ => None
        end
    end.

(** [ToString(v)], as a template literal and [join] compute it; [None]
    stands for the TypeError it throws.  An array is joined with
    commas.  An object without a method that yields a primitive cannot
    be converted: that is an object with a key [toString] of its own,
    which hides [Object.prototype.toString] and, being JSON, is not
    callable; any other object prints as [[object Object]]. *)
Fixpoint ToString (v : value) : option string :=
  match v with
  | VUndefined => Some "undefined"
  | VNull => Some "null"
  | VBool true => Some "true"
  | VBool false => Some "false"
  | VNum repr => Some repr
  | VStr s => Some s
  | VArr items =>
      match strings_of ToString items with
      | Some l => Some (String.concat "," l)
      | None => None
      end
  | VObj props =>
      match obj_get "toString" props with
      | Some _ => None
      | None => Some "[object Object]"
      end
  end.

(** The names [Object.prototype] defines: what an object literal
    inherits, and what [attr in {}] is true for. *)
Definition Object_prototype_names : list string :=
  ["constructor"; "__defineGetter__"; "__defineSetter__"; "hasOwnProperty";
   "__lookupGetter__"; "__lookupSetter__"; "isPrototypeOf";
   "propertyIsEnumerable"; "toString"; "valueOf"; "__proto__";
   "toLocaleString"].

Definition inherited (name : string) : bool :=
  existsb (String.eqb name) Object_prototype_names.

(** ** Promises *)

Inductive promise_state : Type :=
| Pending
| Fulfilled (v : value)
| Rejected (e : exn).

Definition promise := nat.

(** The two functions a [new Promise] executor receives. *)
Inductive settle : Type :=
| ResolveOf (p : promise)
| RejectOf (p : promise).

(** An entry of [_pendingReturns]: [{id, resolve, reject}]. *)
Record PendingReturn : Type := mkPendingReturn {
  id : string;
  resolve : settle;
  reject : settle
}.

(** ** Exposed functions *)

Inductive completion : Type :=
| Returns (v : value)
| Fails (e : exn).

(** A function object: its [name] and what [await fn.apply(this, args)]
    completes with. *)
Record Function : Type := mkFunction {
  fn_name : string;
  fn_apply : value -> completion
}.

(** ** The server and what it does to the outside *)

Inductive event : Type :=
| EvAddReturn (id : string)  (* [this._pendingReturns.push({id, ...})] *)
| EvSend (data : value)      (* [ws.send(JSON.stringify(data))] *)
| EvDebug (text : string)    (* [console.debug(text)] *)
| EvError                    (* [console.error(e)] *)
| EvInit                     (* [initFunction(this)] *)
| EvWindowClose.             (* [window.close()] *)

Record Server : Type := mkServer {
  _idCounter : N;
  _pendingReturns : list PendingReturn;
  _fns : obj Function;         (* the own properties of [this._fns] *)
  _fns_proto : option Function;
    (* what replaced the prototype of [this._fns]; [None] while it is
       [Object.prototype] *)
  _ws_opened_on : option N;
  promises : list promise_state;
  history : list event
}.

(** The state the constructor leaves. *)
Definition new_Server : Server :=
  {| _idCounter := 0; _pendingReturns := []; _fns := []; _fns_proto := None;
     _ws_opened_on := None; promises := []; history := [] |}.

Definition set_idCounter (n : N) (s : Server) : Server :=
  {| _idCounter := n;
     _pendingReturns := _pendingReturns s;
     _fns := _fns s;
     _fns_proto := _fns_proto s;
     _ws_opened_on := _ws_opened_on s;
     promises := promises s;
     history := history s |}.

Definition set_pendingReturns (l : list PendingReturn) (s : Server) : Server :=
  {| _idCounter := _idCounter s;
     _pendingReturns := l;
     _fns := _fns s;
     _fns_proto := _fns_proto s;
     _ws_opened_on := _ws_opened_on s;
     promises := promises s;
     history := history s |}.

Definition set_fns (f : obj Function) (s : Server) : Server :=
  {| _idCounter := _idCounter s;
     _pendingReturns := _pendingReturns s;
     _fns := f;
     _fns_proto := _fns_proto s;
     _ws_opened_on := _ws_opened_on s;
     promises := promises s;
     history := history s |}.

Definition set_fns_proto (p : option Function) (s : Server) : Server :=
  {| _idCounter := _idCounter s;
     _pendingReturns := _pendingReturns s;
     _fns := _fns s;
     _fns_proto := p;
     _ws_opened_on := _ws_opened_on s;
     promises := promises s;
     history := history s |}.

Definition set_ws_opened_on (t : option N) (s : Server) : Server :=
  {| _idCounter := _idCounter s;
     _pendingReturns := _pendingReturns s;
     _fns := _fns s;
     _fns_proto := _fns_proto s;
     _ws_opened_on := t;
     promises := promises s;
     history := history s |}.

Definition set_promises (ps : list promise_state) (s : Server) : Server :=
  {| _idCounter := _idCounter s;
     _pendingReturns := _pendingReturns s;
     _fns := _fns s;
     _fns_proto := _fns_proto s;
     _ws_opened_on := _ws_opened_on s;
     promises := ps;
     history := history s |}.

Definition log_event (e : event) (s : Server) : Server :=
  {| _idCounter := _idCounter s;
     _pendingReturns := _pendingReturns s;
     _fns := _fns s;
     _fns_proto := _fns_proto s;
     _ws_opened_on := _ws_opened_on s;
     promises := promises s;
     history := history s ++ [e] |}.

(** ** The monad of methods *)

Inductive result (A : Type) : Type :=
| Ok (a : A)
| Err (e : exn).

Arguments Ok {A} a.
Arguments Err {A} e.

Definition M (A : Type) : Type := Server -> result A * Server.

Definition ret {A} (a : A) : M A := fun s => (Ok a, s).

Definition throw {A} (e : exn) : M A := fun s => (Err e, s).

Definition bind {A B} (m : M A) (k : A -> M B) : M B :=
  fun s =>
    match m s with
    | (Ok a, s') => k a s'
    | (Err e, s') => (Err e, s')
    end.

Definition get : M Server := fun s => (Ok s, s).

Definition modify (f : Server -> Server) : M unit := fun s => (Ok tt, f s).

Notation "x <- m ;; k" := (bind m (fun x => k))
  (at level 61, m at next level, right associativity).
Notation "m ;; k" := (bind m (fun _ => k))
  (at level 61, right associativity).

(** [Array.prototype.forEach] with a callback that may throw. *)
Fixpoint forEach {A} (f : A -> M unit) (l : list A) : M unit :=
  match l with
  | [] => ret tt
  | x :: l' => f x ;; forEach f l'
  end.

(** ** Platform primitives *)

(** [console.debug(text)] *)
Definition console_debug (text : string) : M unit :=
  modify (log_event (EvDebug text)).

(** [console.error(e)] *)
Definition console_error : M unit := modify (log_event EvError).

(** [window.close()]. *)
Definition window_close : M unit := modify (log_event EvWindowClose).

(** [ws.send(JSON.stringify(data))]. *)
Definition ws_send (data : value) : M unit := modify (log_event (EvSend data)).

(** The [data] of a [MessageEvent], as [JSON.parse] sees it. *)
Inductive MessageData : Type :=
| Malformed (text : string)   (* [JSON.parse] throws a SyntaxError *)
| Document (v : value).       (* [JSON.parse] returns [v] *)

Definition JSON_parse (d : MessageData) : M value :=
  match d with
  | Malformed _ => throw SyntaxError
  | Document v => ret v
  end.

(** [v.k] for the field names the peer reads ([type], [id], [name],
    [args], [ret], [error]), none of which is inherited. *)
Definition prop (v : value) (k : string) : M value :=
  match v with
  | VUndefined | VNull => throw TypeError
  | VObj props =>
      ret (match obj_get k props with Some x => x | None => VUndefined end)
  | _ => ret VUndefined
  end.

(** [Array.prototype.join]; [None] when an element cannot be converted. *)
Definition join (items : list value) (sep : string) : option string :=
  match strings_of ToString items with
  | Some l => Some (String.concat sep l)
  | None => None
  end.

(** [${v}] in a template literal. *)
Definition to_string (v : value) : M string :=
  match ToString v with
  | Some text => ret text
  | None => throw TypeError
  end.

(** [args.join(sep)]: only an array has a callable [join]. *)
Definition Array_join (args : value) (sep : string) : M string :=
  match args with
  | VArr items =>
      match join items sep with
      | Some text => ret text
      | None => throw TypeError
      end
  | _ => throw TypeError
  end.

(** [array.findIndex(p)], with [None] for -1. *)
Fixpoint findIndex {A} (p : A -> bool) (l : list A) : option nat :=
  match l with
  | [] => None
  | x :: l' =>
      if p x then Some 0
      else match findIndex p l' with Some i => Some (S i) | None => None end
  end.

(** [array.splice(i, 1)]: what is left of the array. *)
Fixpoint splice1 {A} (i : nat) (l : list A) : list A :=
  match l, i with
  | [], _ => []
  | _ :: l', 0 => l'
  | x :: l', S i' => x :: splice1 i' l'
  end.

(** Calling [resolve(v)] or [reject(v)]: only a pending promise changes. *)
Fixpoint settle_at (p : promise) (st : promise_state)
  (ps : list promise_state) : list promise_state :=
  match ps, p with
  | [], _ => []
  | Pending :: ps', 0 => st :: ps'
  | q :: ps', 0 => q :: ps'
  | q :: ps', S p' => q :: settle_at p' st ps'
  end.

Definition settle_with (f : settle) (v : value) (ps : list promise_state)
  : list promise_state :=
  match f with
  | ResolveOf p => settle_at p (Fulfilled v) ps
  | RejectOf p => settle_at p (Rejected (Thrown v)) ps
  end.

Definition call_settle (f : settle) (v : value) : M unit :=
  modify (fun s => set_promises (settle_with f v (promises s)) s).

(** [new Promise(executor)]: the executor runs at once; if it throws, the
    promise is rejected with what it threw. *)
Definition new_Promise (executor : settle -> settle -> M unit) : M promise :=
  fun s =>
    let p := length (promises s) in
    let s1 := set_promises (promises s ++ [Pending]) s in
    match executor (ResolveOf p) (RejectOf p) s1 with
    | (Ok _, s2) => (Ok p, s2)
    | (Err e, s2) =>
        (Ok p, set_promises (settle_at p (Rejected e) (promises s2)) s2)
    end.

(** The state of promise [p]. *)
Definition promise_of (p : promise) (s : Server) : option promise_state :=
  nth_error (promises s) p.

(** ** [class Server]: the methods both revisions share *)

(** [_send_call(id, name, args)] *)
Definition _send_call (id : string) (name : string) (args : value) : M unit :=
  joined <- Array_join args ", " ;;
  console_debug ("sending call #" ++ id ++ ": " ++ name ++ "(" ++ joined ++ ")") ;;
  ws_send (VObj [("type", VStr "call"); ("id", VStr id);
                 ("name", VStr name); ("args", args)]).

(** [_send_return(id, name, args, ret)] *)
Definition _send_return (id name args ret_ : value) : M unit :=
  let ret_ := match ret_ with VUndefined => VNull | _ => ret_ end in
  id_text <- to_string id ;;
  name_text <- to_string name ;;
  joined <- Array_join args ", " ;;
  ret_text <- to_string ret_ ;;
  console_debug ("sending return for #" ++ id_text ++ ": " ++ name_text
                 ++ "(" ++ joined ++ ") -> " ++ ret_text) ;;
  ws_send (VObj [("type", VStr "return"); ("id", id); ("ret", ret_)]).

(** [_addReturn(id, resolve, reject)] *)
Definition _addReturn (id : string) (resolve reject : settle) : M unit :=
  modify (fun s =>
    log_event (EvAddReturn id)
      (set_pendingReturns
         (_pendingReturns s ++ [mkPendingReturn id resolve reject]) s)).

(** [_popReturn(id)] *)
Definition _popReturn (id_ : value) : M (settle * settle) :=
  s <- get ;;
  match findIndex (fun x => strict_eq (VStr (id x)) id_) (_pendingReturns s) with
  | None =>
      id_text <- to_string id_ ;;
      throw (Thrown (VStr ("no handler for call #" ++ id_text)))
  | Some returnI =>
      match nth_error (_pendingReturns s) returnI with
      | Some x =>
          modify (set_pendingReturns (splice1 returnI (_pendingReturns s))) ;;
          ret (resolve x, reject x)
      | None => throw TypeError
      end
  end.

(** [execute(name, args)]; the result is the promise the caller awaits. *)
Definition execute (name : string) (args : value) : M promise :=
  modify (fun s => set_idCounter (add1 (_idCounter s)) s) ;;
  s <- get ;;
  let callId := toString10 (_idCounter s) in
  result_ <- new_Promise (fun resolve reject => _addReturn callId resolve reject) ;;
  _send_call callId name args ;;
  ret result_.

(** [getInvoker]: what the proxy hands out for [server.py.attr].  The
    target is an empty object: for a name it inherits, [attr in target]
    holds and the inherited member is handed out, which is no call of
    the server ([None]); for any other name, the function that runs
    [execute(attr, [...args])]. *)
Definition py (attr : string) : option (list value -> M promise) :=
  if inherited attr then None
  else Some (fun args => execute attr (VArr args)).

(** [_on_call(id, name, args)].  The lookup [this._fns[name]] is
    modelled on the own properties of [_fns]; for a name that [_fns]
    inherits (from [Object.prototype], see [inherited], or from what
    replaced it) the code finds the inherited member and runs it, which
    this definition does not follow. *)
Definition _on_call (id name args : value) : M unit :=
  id_text <- to_string id ;;
  name_text <- to_string name ;;
  joined <- Array_join args ", " ;;
  console_debug ("received call #" ++ id_text ++ ": " ++ name_text
                 ++ "(" ++ joined ++ ")") ;;
  s <- get ;;
  match obj_get name_text (_fns s) with
  | None =>
      let fns := Object_keys (_fns s) in
      throw (Thrown (VStr ("function '" ++ name_text
                           ++ "' is not found, registered functions: ["
                           ++ String.concat "," fns ++ "]")))
  | Some fn =>
      match fn_apply fn args with
      | Returns ret_ => _send_return id name args ret_
      | Fails e => throw e
      end
  end.

(** [_on_error(id, error)] *)
Definition _on_error (id error : value) : M unit :=
  id_text <- to_string id ;;
  error_text <- to_string error ;;
  console_debug ("received return error #" ++ id_text ++ ": " ++ error_text) ;;
  rr <- _popReturn id ;;
  call_settle (snd rr) error.

(** [_on_return(id, ret)] *)
Definition _on_return (id ret_ : value) : M unit :=
  id_text <- to_string id ;;
  ret_text <- to_string ret_ ;;
  console_debug ("received return for #" ++ id_text ++ " -> " ++ ret_text) ;;
  rr <- _popReturn id ;;
  call_settle (fst rr) ret_.

(** The argument of [expose]: a function or a name-to-function object. *)
Inductive fnOrFns : Type :=
| OneFunction (f : Function)
| Mapping (m : obj Function).

(** What [expose] throws for a name that is taken. *)
Definition already_registered (name : string) : exn :=
  Thrown (VStr ("function '" ++ name ++ "' is already registered")).

(** The callback [expose] hands to [forEach].  The check
    [this._fns.hasOwnProperty(name)] is modelled by the inherited
    method, which is the one that runs as long as no function is
    registered under the name [hasOwnProperty] itself (see
    [plain_registry]).  The assignment [this._fns[name] = fn] adds an
    own property, except for the name [__proto__], where it replaces
    the prototype of [_fns] and adds none.  Once the prototype is
    replaced, what [_fns] inherits is no longer known, and the model
    stops following the registry (see [plain_registry]). *)
Definition expose_entry (entry : string * Function) : M unit :=
  let (name, fn) := entry in
  s <- get ;;
  if hasOwnProperty (_fns s) name
  then throw (already_registered name)
  else if String.eqb name "__proto__" then modify (set_fns_proto (Some fn))
  else modify (set_fns (obj_set name fn (_fns s))).

(** [expose(fnOrFns)].  For a function, [mapping[fnOrFns.name] =
    fnOrFns] on an empty object: an own property, except for the name
    [__proto__], where the mapping stays without entries. *)
Definition expose (arg : fnOrFns) : M unit :=
  let mapping :=
    match arg with
    | OneFunction f =>
        if String.eqb (fn_name f) "__proto__" then []
        else obj_set (fn_name f) f []
    | Mapping m => m
    end in
  forEach expose_entry (Object_entries mapping).

(** The dispatch on [msg.type], written alike in both revisions; they
    differ in what a [close] message runs. *)
Definition dispatch (on_close_message : M unit) (msg : value) : M unit :=
  t <- prop msg "type" ;;
  if strict_eq t (VStr "return") then
    i <- prop msg "id" ;; r <- prop msg "ret" ;; _on_return i r
  else if strict_eq t (VStr "call") then
    i <- prop msg "id" ;; n <- prop msg "name" ;; a <- prop msg "args" ;;
    _on_call i n a
  else if strict_eq t (VStr "error") then
    i <- prop msg "id" ;; e <- prop msg "error" ;; _on_error i e
  else if strict_eq t (VStr "close") then
    on_close_message
  else ret tt.

(** ** [bootstrap.js]: the server behind a [Channel] *)

Module Bootstrap.

(** [_on_close()] *)
Definition _on_close : M unit :=
  console_debug "received close message" ;;
  window_close.

(** [chan.onOpened] *)
Definition onOpened : M unit := modify (log_event EvInit).

(** [chan.onMessage] *)
Definition onMessage (msg : value) : M unit := dispatch _on_close msg.

(** [chan.onError] *)
Definition onError : M unit := console_error.

(** [chan.onClose] *)
Definition onClose : M unit := console_debug "ws conn close".

(** [Channel]: the four WebSocket callbacks, once the server has set
    the channel's handlers. *)
Definition ws_onopen : M unit := onOpened.

Definition ws_onmessage (e_data : MessageData) : M unit :=
  msg <- JSON_parse e_data ;; onMessage msg.

Definition ws_onerror : M unit := onError.

Definition ws_onclose : M unit := onClose.

End Bootstrap.

(** ** The other revision: the server on the bare WebSocket *)

Module Direct.

(** [_on_ws_open()]; [now] is [Date.now()]. *)
Definition _on_ws_open (now : N) : M unit :=
  modify (set_ws_opened_on (Some now)) ;;
  modify (log_event EvInit).

(** [_on_normal_close()]; the assignment to [ws.onClose] sets a
    property the socket never reads. *)
Definition _on_normal_close : M unit :=
  console_debug "received close message" ;;
  window_close.

(** [_on_ws_message(e)] *)
Definition _on_ws_message (e_data : MessageData) : M unit :=
  msg <- JSON_parse e_data ;; dispatch _on_normal_close msg.

(** [_on_ws_error(e)] *)
Definition _on_ws_error : M unit := console_error.

(** [_on_abnormal_close(e)]; [wasClean] is [e.wasClean]. *)
Definition _on_abnormal_close (wasClean : bool) : M unit :=
  s <- get ;;
  let serverDied :=
    (match _ws_opened_on s with Some _ => true | None => false end)
    && negb wasClean in
  if serverDied then window_close else ret tt.

End Direct.

(** ** Envelopes, and the peer as a reactive system *)

Definition call_envelope (id name args : value) : value :=
  VObj [("type", VStr "call"); ("id", id); ("name", name); ("args", args)].

Definition return_envelope (id ret_ : value) : value :=
  VObj [("type", VStr "return"); ("id", id); ("ret", ret_)].

Definition error_envelope (id error : value) : value :=
  VObj [("type", VStr "error"); ("id", id); ("error", error)].

(** Which of the two revisions is running. *)
Inductive revision : Type :=
| bootstrap_js
| direct_ws.

(** [ws.onmessage] *)
Definition on_message (r : revision) (d : MessageData) : M unit :=
  match r with
  | bootstrap_js => Bootstrap.ws_onmessage d
  | direct_ws => Direct._on_ws_message d
  end.

(** [ws.onclose], for a close event with the given [wasClean]. *)
Definition on_close (r : revision) (wasClean : bool) : M unit :=
  match r with
  | bootstrap_js => Bootstrap.ws_onclose
  | direct_ws => Direct._on_abnormal_close wasClean
  end.

(** [ws.onopen], at time [now]. *)
Definition on_open (r : revision) (now : N) : M unit :=
  match r with
  | bootstrap_js => Bootstrap.ws_onopen
  | direct_ws => Direct._on_ws_open now
  end.

(** [ws.onerror] *)
Definition on_error (r : revision) : M unit :=
  match r with
  | bootstrap_js => Bootstrap.ws_onerror
  | direct_ws => Direct._on_ws_error
  end.

(** What can happen to a server: the page calls its API, or the socket
    fires an event. *)
Inductive input : Type :=
| Expose (arg : fnOrFns)
| Execute (name : string) (args : value)
| WsOpen (now : N)
| WsMessage (d : MessageData)
| WsError
| WsClose (wasClean : bool).

Definition react (r : revision) (i : input) : M unit :=
  match i with
  | Expose arg => expose arg
  | Execute name args => execute name args ;; ret tt
  | WsOpen now => on_open r now
  | WsMessage d => on_message r d
  | WsError => on_error r
  | WsClose wasClean => on_close r wasClean
  end.

(** The states a server of revision [r] can be in. *)
Inductive reachable (r : revision) : Server -> Prop :=
| reachable_new : reachable r new_Server
| reachable_react (i : input) (s : Server) :
    reachable r s -> reachable r (snd (react r i s)).

(** The promise an entry of [_pendingReturns] settles. *)
Definition entry_promise (x : PendingReturn) : promise :=
  match resolve x with ResolveOf p | RejectOf p => p end.

(** Every pending id was issued by the counter. *)
Definition ids_issued (s : Server) : Prop :=
  forall x, In x (_pendingReturns s) ->
    exists k, id x = toString10 k /\ (1 <= k <= _idCounter s)%N.

(** Every pending entry holds the two functions of one promise, which
    is still pending; no two entries share a promise. *)
Definition entries_pending (s : Server) : Prop :=
  (forall x, In x (_pendingReturns s) ->
     resolve x = ResolveOf (entry_promise x) /\
     reject x = RejectOf (entry_promise x) /\
     promise_of (entry_promise x) s = Some Pending) /\
  NoDup (map entry_promise (_pendingReturns s)).

(** Until the counter stops growing, no two pending entries share an id. *)
Definition ids_unique (s : Server) : Prop :=
  (_idCounter s < 2 ^ 53)%N -> NoDup (map id (_pendingReturns s)).

(** In a history, each [call] envelope sent is preceded by the
    registration of its id. *)
Definition registered_before_sent (h : list event) : Prop :=
  forall n i name args,
    nth_error h n = Some (EvSend (call_envelope (VStr i) name args)) ->
    exists m, m < n /\ nth_error h m = Some (EvAddReturn i).

Definition invariant (s : Server) : Prop :=
  ids_issued s /\ entries_pending s /\ ids_unique s /\
  registered_before_sent (history s).

(** Events that neither register nor send a call. *)
Definition benign (e : event) : Prop :=
  match e with
  | EvAddReturn _ => False
  | EvSend data => forall i name args, data <> call_envelope i name args
  | EvDebug _ | EvError | EvInit | EvWindowClose => True
  end.

(** [s'] comes from [s] by steps that leave calls alone: counter, table
    and promises stand, the history grows by benign events. *)
Definition calm (s s' : Server) : Prop :=
  _idCounter s' = _idCounter s /\
  _pendingReturns s' = _pendingReturns s /\
  promises s' = promises s /\
  exists evs, history s' = (history s ++ evs)%list /\ Forall benign evs.

Definition Calm {A} (m : M A) : Prop := forall s, calm s (snd (m s)).

(** [s'] comes from [s] by answering one call: the first entry with
    the id is removed and one of its two functions called. *)
Definition answered (s s' : Server) : Prop :=
  exists P x R f v evs,
    _pendingReturns s = (P ++ x :: R)%list /\
    (forall y, In y P -> id y <> id x) /\
    (f = resolve x \/ f = reject x) /\
    _idCounter s' = _idCounter s /\
    _pendingReturns s' = (P ++ R)%list /\
    promises s' = settle_with f v (promises s) /\
    history s' = (history s ++ evs)%list /\ Forall benign evs.

(** The [type] a message carries, and whether the peer knows it. *)
Definition type_field (msg : value) : value :=
  match msg with
  | VObj props =>
      match obj_get "type" props with Some t => t | None => VUndefined end
  | _ => VUndefined
  end.

Definition known_type (t : value) : bool :=
  strict_eq t (VStr "return") || strict_eq t (VStr "call")
  || strict_eq t (VStr "error") || strict_eq t (VStr "close").

(** The server once [execute] has bumped the counter and its promise
    executor has run, before the call is sent. *)
Definition registered (s : Server) : Server :=
  let callId := toString10 (add1 (_idCounter s)) in
  let p := length (promises s) in
  {| _idCounter := add1 (_idCounter s);
     _pendingReturns :=
       _pendingReturns s ++ [mkPendingReturn callId (ResolveOf p) (RejectOf p)];
     _fns := _fns s;
     _fns_proto := _fns_proto s;
     _ws_opened_on := _ws_opened_on s;
     promises := promises s ++ [Pending];
     history := history s ++ [EvAddReturn callId] |}.


(** The ids pushed on [_pendingReturns] in the course of a history, in
    order. *)
Fixpoint registered_ids (h : list event) : list string :=
  match h with
  | [] => []
  | EvAddReturn i :: h' => i :: registered_ids h'
  | _ :: h' => registered_ids h'
  end.

(** The objects handed to the socket in the course of a history, in
    order. *)
Fixpoint sent (h : list event) : list value :=
  match h with
  | [] => []
  | EvSend data :: h' => data :: sent h'
  | _ :: h' => sent h'
  end.

(** Whether an input is a message of type [return] or [error] that
    bears the id. *)
Definition answers (i : input) (id_ : string) : bool :=
  match i with
  | WsMessage (Document (VObj props)) =>
      let field k :=
        match obj_get k props with Some x => x | None => VUndefined end in
      (strict_eq (field "type") (VStr "return")
       || strict_eq (field "type") (VStr "error"))
      && strict_eq (VStr id_) (field "id")
  | _ => false
  end.

(** A computation that leaves a field of the server alone. *)
Definition Keeps {B A} (field : Server -> B) (m : M A) : Prop :=
  forall s, field (snd (m s)) = field s.

(** A field that none of the four setters of the call machinery writes. *)
Definition framed {B} (field : Server -> B) : Prop :=
  (forall e s, field (log_event e s) = field s) /\
  (forall l s, field (set_pendingReturns l s) = field s) /\
  (forall n s, field (set_idCounter n s) = field s) /\
  (forall ps s, field (set_promises ps s) = field s).

(** The server after a sequence of inputs. *)
Fixpoint run (r : revision) (inputs : list input) (s : Server) : Server :=
  match inputs with
  | [] => s
  | i :: rest => run r rest (snd (react r i s))
  end.

Definition is_open (i : input) : bool :=
  match i with WsOpen _ => true | _ => false end.

(** [this._ws_opened_on != null] *)
Definition opened (s : Server) : bool :=
  match _ws_opened_on s with Some _ => true | None => false end.

(** [ret === undefined ? null : ret], as [_send_return] has it. *)
Definition null_if_undefined (v : value) : value :=
  match v with VUndefined => VNull | _ => v end.

(** The ids [1, ..., n] as [toString(10)] renders them. *)
Definition decimal_ids (n : N) : list string :=
  map (fun k => toString10 (N.of_nat k)) (seq 1 (N.to_nat n)).

(** Whether an input is a message of type [call] for the name. *)
Definition calls (i : input) (name : string) : bool :=
  match i with
  | WsMessage (Document (VObj props)) =>
      let field k :=
        match obj_get k props with Some x => x | None => VUndefined end in
      strict_eq (field "type") (VStr "call")
      && match ToString (field "name") with
         | Some text => String.eqb text name
         | None => false
         end
  | _ => false
  end.

(** What [_popReturn] throws for an id that has no entry: the string
    of its template literal, or the TypeError of the conversion. *)
Definition no_handler (id_ : value) : exn :=
  match ToString id_ with
  | Some id_text => Thrown (VStr ("no handler for call #" ++ id_text))
  | None => TypeError
  end.

(** A value a template literal can print. *)
Definition printable (v : value) : Prop := ToString v <> None.

(** A name under which [expose] stores an own property and which does
    not replace the duplicate check. *)
Definition plain_key (name : string) : Prop :=
  name <> "__proto__" /\ name <> "hasOwnProperty".

(** A registry as the model follows it: its prototype is
    [Object.prototype], and no function is registered under the name
    [hasOwnProperty], so that the duplicate check is the inherited
    method. *)
Definition plain_registry (s : Server) : Prop :=
  _fns_proto s = None /\
  forall name, In name (map fst (_fns s)) -> plain_key name.

(** The names of the entries an [expose] is given. *)
Definition exposed_names (arg : fnOrFns) : list string :=
  match arg with
  | OneFunction f => [fn_name f]
  | Mapping m => map fst m
  end.

(** The envelopes of type [return] or [error] among those sent. *)
Definition is_reply (data : value) : bool :=
  strict_eq (type_field data) (VStr "return")
  || strict_eq (type_field data) (VStr "error").

Definition replies (h : list event) : list value := filter is_reply (sent h).

(** * Properties *)

(** ** Lists: [findIndex], [splice], promise cells *)

Lemma findIndex_None {A} (p : A -> bool) (l : list A) :
  findIndex p l = None <-> (forall x, In x l -> p x = false).
Proof.
  induction l as [|a l IH]; simpl.
  - split; [intros _ x []|reflexivity].
  - destruct (p a) eqn:Ha.
    + split; [discriminate|].
      intros H. rewrite (H a) in Ha by (left; reflexivity). discriminate.
    + destruct (findIndex p l) as [i|].
      * split; [discriminate|].
        intros H.
        assert (Some i = None) as E
          by (apply IH; intros x Hx; apply H; right; exact Hx).
        discriminate.
      * split; [|reflexivity].
        intros _ x [<-|Hx]; [exact Ha|]. now apply IH.
Qed.

Lemma findIndex_app {A} (p : A -> bool) (l1 l2 : list A) :
  (forall x, In x l1 -> p x = false) ->
  findIndex p (l1 ++ l2) =
  match findIndex p l2 with Some i => Some (length l1 + i) | None => None end.
Proof.
  induction l1 as [|a l1 IH]; simpl; intros H.
  - now destruct (findIndex p l2).
  - rewrite (H a) by (left; reflexivity).
    rewrite IH by (intros x Hx; apply H; right; exact Hx).
    now destruct (findIndex p l2).
Qed.

(** A found index splits the array at the first element that passes. *)
Lemma findIndex_Some {A} (p : A -> bool) (l : list A) (n : nat) :
  findIndex p l = Some n ->
  exists l1 x l2,
    l = (l1 ++ x :: l2)%list /\ length l1 = n /\ p x = true /\
    (forall y, In y l1 -> p y = false).
Proof.
  revert n. induction l as [|a l IH]; simpl; intros n H; [discriminate|].
  destruct (p a) eqn:Ha.
  - injection H as <-. exists [], a, l. repeat apply conj; auto. intros y [].
  - destruct (findIndex p l) as [i|]; [|discriminate].
    injection H as <-.
    destruct (IH i eq_refl) as (l1 & x & l2 & -> & Hlen & Hx & Hl1).
    exists (a :: l1), x, l2.
    repeat apply conj; simpl; auto.
    intros y [<-|Hy]; auto.
Qed.

Lemma splice1_app {A} (l1 l2 : list A) (i : nat) :
  splice1 (length l1 + i) (l1 ++ l2) = (l1 ++ splice1 i l2)%list.
Proof.
  induction l1 as [|a l1 IH]; simpl; [reflexivity|]. now rewrite IH.
Qed.

Lemma nth_error_app_plus {A} (l1 l2 : list A) (i : nat) :
  nth_error (l1 ++ l2) (length l1 + i) = nth_error l2 i.
Proof.
  induction l1 as [|a l1 IH]; simpl; [reflexivity|exact IH].
Qed.

Lemma nth_error_middle {A} (l1 l2 : list A) (a : A) :
  nth_error (l1 ++ a :: l2) (length l1) = Some a.
Proof. induction l1 as [|b l1 IH]; simpl; [reflexivity|exact IH]. Qed.

Lemma settle_at_pending (ps qs : list promise_state) (st : promise_state) :
  settle_at (length ps) st (ps ++ Pending :: qs) = (ps ++ st :: qs)%list.
Proof.
  induction ps as [|a ps IH]; simpl; [reflexivity|].
  destruct a; now rewrite IH.
Qed.

(** Settling a pending promise sets it; a settled one stays. *)
Lemma settle_at_same (ps : list promise_state) (p : promise) (st : promise_state) :
  nth_error ps p = Some Pending -> nth_error (settle_at p st ps) p = Some st.
Proof.
  revert p. induction ps as [|a ps IH]; intros [|p]; simpl; try discriminate.
  - intros [= ->]. reflexivity.
  - intros H. destruct a; simpl; now apply IH.
Qed.

(** Settling one promise leaves the others alone. *)
Lemma settle_at_other (ps : list promise_state) (p q : promise) (st : promise_state) :
  p <> q -> nth_error (settle_at q st ps) p = nth_error ps p.
Proof.
  revert p q. induction ps as [|a ps IH]; intros p q Hpq; [now destruct q|].
  destruct q as [|q], p as [|p]; try congruence.
  - now destruct a.
  - now destruct a.
  - destruct a; simpl; apply IH; congruence.
Qed.

Lemma settle_with_other (f : settle) (v : value) (ps : list promise_state) (p : promise) :
  p <> match f with ResolveOf q | RejectOf q => q end ->
  nth_error (settle_with f v ps) p = nth_error ps p.
Proof. destruct f; simpl; apply settle_at_other. Qed.

(** ** Decimal ids *)

Lemma toString10_inj (m n : N) : toString10 m = toString10 n -> m = n.
Proof.
  unfold toString10. intros H.
  apply Unsigned.to_uint_inj.
  assert (Some (N.to_uint m) = Some (N.to_uint n)) as E
    by (rewrite <- !NilEmpty.usu, H; reflexivity).
  now injection E.
Qed.

Lemma add1_ge (n : N) : (n <= add1 n)%N /\ (1 <= add1 n)%N.
Proof. unfold add1. destruct (N.ltb_spec n (2 ^ 53)); split; lia. Qed.

Lemma add1_below (n : N) : (add1 n < 2 ^ 53)%N -> (n < add1 n)%N /\ (n < 2 ^ 53)%N.
Proof. unfold add1. destruct (N.ltb_spec n (2 ^ 53)); lia. Qed.

Lemma add1_fresh (n : N) :
  add1 n <> add1 (add1 n) -> (n < add1 n < add1 (add1 n))%N.
Proof.
  unfold add1.
  destruct (N.ltb_spec n (2 ^ 53)).
  - destruct (N.ltb_spec (n + 1) (2 ^ 53)); [lia|congruence].
  - destruct (N.ltb_spec n (2 ^ 53)); [lia|congruence].
Qed.

Lemma strict_eq_VStr (a : string) (v : value) :
  strict_eq (VStr a) v = true <-> v = VStr a.
Proof.
  destruct v; simpl; try (split; [discriminate|congruence]).
  rewrite String.eqb_eq. split; congruence.
Qed.

(** ** Steps that leave calls alone *)

Lemma calm_refl (s : Server) : calm s s.
Proof.
  repeat apply conj; auto. exists []. split; [now rewrite app_nil_r|constructor].
Qed.

Lemma calm_trans (s1 s2 s3 : Server) : calm s1 s2 -> calm s2 s3 -> calm s1 s3.
Proof.
  intros (Hc & Hp & Hq & evs & Hh & Hb) (Hc' & Hp' & Hq' & evs' & Hh' & Hb').
  repeat apply conj; try congruence.
  exists (evs ++ evs')%list. split.
  - now rewrite Hh', Hh, app_assoc.
  - apply Forall_app; split; assumption.
Qed.

Lemma Calm_ret {A} (a : A) : Calm (ret a).
Proof. intros s; apply calm_refl. Qed.

Lemma Calm_throw {A} (e : exn) : Calm (@throw A e).
Proof. intros s; apply calm_refl. Qed.

Lemma Calm_get : Calm get.
Proof. intros s; apply calm_refl. Qed.

Lemma Calm_bind {A B} (m : M A) (k : A -> M B) :
  Calm m -> (forall a, Calm (k a)) -> Calm (bind m k).
Proof.
  intros Hm Hk s. unfold bind.
  specialize (Hm s). destruct (m s) as [[a|e] s1]; simpl in *.
  - eapply calm_trans; [exact Hm|apply Hk].
  - exact Hm.
Qed.

Lemma Calm_log (e : event) : benign e -> Calm (modify (log_event e)).
Proof.
  intros He s. repeat apply conj; auto.
  exists [e]. split; [reflexivity|]. constructor; [exact He|constructor].
Qed.

Lemma Calm_set_fns (f : obj Function) : Calm (modify (set_fns f)).
Proof.
  intros s. repeat apply conj; auto.
  exists []. simpl. split; [now rewrite app_nil_r|constructor].
Qed.

Lemma Calm_set_fns_proto (p : option Function) : Calm (modify (set_fns_proto p)).
Proof.
  intros s. repeat apply conj; auto.
  exists []. simpl. split; [now rewrite app_nil_r|constructor].
Qed.

Lemma Calm_set_ws_opened_on (t : option N) : Calm (modify (set_ws_opened_on t)).
Proof.
  intros s. repeat apply conj; auto.
  exists []. simpl. split; [now rewrite app_nil_r|constructor].
Qed.

Lemma Calm_console_debug (text : string) : Calm (console_debug text).
Proof. apply Calm_log. exact I. Qed.

Lemma Calm_console_error : Calm console_error.
Proof. apply Calm_log. exact I. Qed.

Lemma Calm_window_close : Calm window_close.
Proof. apply Calm_log. exact I. Qed.

Lemma Calm_JSON_parse (d : MessageData) : Calm (JSON_parse d).
Proof. destruct d; [apply Calm_throw|apply Calm_ret]. Qed.

Lemma Calm_prop (v : value) (k : string) : Calm (prop v k).
Proof. destruct v; first [apply Calm_throw|apply Calm_ret]. Qed.

Lemma Calm_to_string (v : value) : Calm (to_string v).
Proof. unfold to_string. destruct (ToString v); [apply Calm_ret|apply Calm_throw]. Qed.

Lemma Calm_Array_join (args : value) (sep : string) : Calm (Array_join args sep).
Proof.
  destruct args; try apply Calm_throw. simpl.
  destruct (join items sep); [apply Calm_ret|apply Calm_throw].
Qed.

Create HintDb calm.

#[local] Hint Resolve Calm_ret Calm_throw Calm_get Calm_log Calm_set_fns
  Calm_set_fns_proto Calm_set_ws_opened_on Calm_console_debug Calm_console_error Calm_window_close
  Calm_JSON_parse Calm_prop Calm_to_string Calm_Array_join : calm.

Ltac calm_step :=
  first [ solve [auto with calm] | apply Calm_bind; [|intros ?] ].

Lemma Calm_send_return (i name args r : value) : Calm (_send_return i name args r).
Proof.
  unfold _send_return. repeat calm_step.
  apply Calm_log. simpl. intros ? ? ?. unfold call_envelope. congruence.
Qed.

Lemma Calm_on_call (i name args : value) : Calm (_on_call i name args).
Proof.
  unfold _on_call. repeat calm_step.
  destruct (obj_get _ _) as [fn|]; [|auto with calm].
  destruct (fn_apply fn args); [apply Calm_send_return|auto with calm].
Qed.

Lemma Calm_forEach {A} (f : A -> M unit) (l : list A) :
  (forall x, Calm (f x)) -> Calm (forEach f l).
Proof.
  intros Hf. induction l as [|x l IH]; simpl; [apply Calm_ret|].
  apply Calm_bind; [apply Hf|intros _; exact IH].
Qed.

Lemma Calm_expose (arg : fnOrFns) : Calm (expose arg).
Proof.
  unfold expose. apply Calm_forEach. intros [name fn]. unfold expose_entry.
  apply Calm_bind; [auto with calm|intros s].
  destruct (hasOwnProperty (_fns s) name); auto with calm.
  destruct (String.eqb name "__proto__"); auto with calm.
Qed.

Lemma Calm_on_close (r : revision) (wasClean : bool) : Calm (on_close r wasClean).
Proof.
  destruct r; simpl.
  - apply Calm_console_debug.
  - unfold Direct._on_abnormal_close.
    apply Calm_bind; [auto with calm|intros s].
    destruct (_ && _); auto with calm.
Qed.

Lemma Calm_on_open (r : revision) (now : N) : Calm (on_open r now).
Proof.
  destruct r; simpl.
  - apply Calm_log. exact I.
  - unfold Direct._on_ws_open.
    apply Calm_bind; [auto with calm|intros _]. apply Calm_log. exact I.
Qed.

Lemma Calm_on_error (r : revision) : Calm (on_error r).
Proof. destruct r; apply Calm_console_error. Qed.

Lemma Calm_close_message (r : revision) :
  Calm (match r with
        | bootstrap_js => Bootstrap._on_close
        | direct_ws => Direct._on_normal_close
        end).
Proof.
  destruct r; unfold Bootstrap._on_close, Direct._on_normal_close; repeat calm_step.
Qed.

(** ** [_popReturn] and the two response handlers *)

Lemma popReturn_found (s : Server) (P R : list PendingReturn) (x : PendingReturn) :
  _pendingReturns s = (P ++ x :: R)%list ->
  (forall y, In y P -> id y <> id x) ->
  _popReturn (VStr (id x)) s =
  (Ok (resolve x, reject x), set_pendingReturns (P ++ R) s).
Proof.
  intros Hp Hfresh. unfold _popReturn, bind, get. simpl.
  rewrite Hp, findIndex_app.
  - simpl. rewrite String.eqb_refl, nth_error_app_plus. simpl.
    unfold modify, ret. now rewrite splice1_app.
  - intros y Hy. simpl. apply String.eqb_neq. auto.
Qed.

Lemma popReturn_missing (s : Server) (i : value) :
  (forall x, In x (_pendingReturns s) -> i <> VStr (id x)) ->
  _popReturn i s = (Err (no_handler i), s).
Proof.
  intros H. unfold _popReturn, bind, get. simpl.
  replace (findIndex _ _) with (@None nat).
  - unfold no_handler, to_string. now destruct (ToString i).
  - symmetry. apply findIndex_None. intros x Hx.
    apply Bool.not_true_is_false. intros E.
    apply strict_eq_VStr in E. exact (H x Hx E).
Qed.

(** [_popReturn] either throws and changes nothing, or removes the
    first entry that bears the id. *)
Lemma popReturn_cases (i : value) (s : Server) :
  _popReturn i s = (Err (no_handler i), s) \/
  exists P x R,
    _pendingReturns s = (P ++ x :: R)%list /\
    i = VStr (id x) /\
    (forall y, In y P -> id y <> id x) /\
    _popReturn i s = (Ok (resolve x, reject x), set_pendingReturns (P ++ R) s).
Proof.
  destruct (findIndex (fun x => strict_eq (VStr (id x)) i) (_pendingReturns s))
    as [n|] eqn:E.
  - right. apply findIndex_Some in E.
    destruct E as (P & x & R & Hp & _ & Hx & HP).
    apply strict_eq_VStr in Hx. subst i.
    assert (forall y, In y P -> id y <> id x) as Hfresh.
    { intros y Hy Heq. specialize (HP y Hy). simpl in HP.
      rewrite Heq, String.eqb_refl in HP. discriminate. }
    exists P, x, R. repeat apply conj; auto. now apply popReturn_found.
  - left. apply popReturn_missing. intros x Hx ->.
    rewrite findIndex_None in E. specialize (E x Hx). simpl in E.
    rewrite String.eqb_refl in E. discriminate.
Qed.

(** The two response handlers, past their debug line: when id and
    payload can be printed, the line is written and the entry looked
    up; otherwise the TypeError of the conversion leaves the handler
    before anything is done. *)
Lemma on_return_unfold (i v : value) (s : Server) :
  _on_return i v s =
  match ToString i, ToString v with
  | Some a, Some b =>
      (rr <- _popReturn i ;; call_settle (fst rr) v)
        (log_event (EvDebug ("received return for #" ++ a ++ " -> " ++ b)) s)
  | _, _ => (Err TypeError, s)
  end.
Proof.
  unfold _on_return, bind, to_string.
  destruct (ToString i), (ToString v); reflexivity.
Qed.

Lemma on_error_unfold (i v : value) (s : Server) :
  _on_error i v s =
  match ToString i, ToString v with
  | Some a, Some b =>
      (rr <- _popReturn i ;; call_settle (snd rr) v)
        (log_event (EvDebug ("received return error #" ++ a ++ ": " ++ b)) s)
  | _, _ => (Err TypeError, s)
  end.
Proof.
  unfold _on_error, bind, to_string.
  destruct (ToString i), (ToString v); reflexivity.
Qed.

Lemma on_return_found (s : Server) (P R : list PendingReturn) (x : PendingReturn)
  (v : value) (text : string) :
  ToString v = Some text ->
  _pendingReturns s = (P ++ x :: R)%list ->
  (forall y, In y P -> id y <> id x) ->
  _on_return (VStr (id x)) v s =
  (Ok tt,
   set_promises (settle_with (resolve x) v (promises s))
     (set_pendingReturns (P ++ R)
        (log_event (EvDebug ("received return for #" ++ id x ++ " -> " ++ text)) s))).
Proof.
  intros Hv Hp Hfresh. rewrite on_return_unfold, Hv. cbn [ToString].
  unfold bind. set (s1 := log_event _ s).
  now rewrite (popReturn_found s1 P R x Hp Hfresh).
Qed.

Lemma on_error_found (s : Server) (P R : list PendingReturn) (x : PendingReturn)
  (v : value) (text : string) :
  ToString v = Some text ->
  _pendingReturns s = (P ++ x :: R)%list ->
  (forall y, In y P -> id y <> id x) ->
  _on_error (VStr (id x)) v s =
  (Ok tt,
   set_promises (settle_with (reject x) v (promises s))
     (set_pendingReturns (P ++ R)
        (log_event (EvDebug ("received return error #" ++ id x ++ ": " ++ text)) s))).
Proof.
  intros Hv Hp Hfresh. rewrite on_error_unfold, Hv. cbn [ToString].
  unfold bind. set (s1 := log_event _ s).
  now rewrite (popReturn_found s1 P R x Hp Hfresh).
Qed.

Lemma on_return_cases (i v : value) (s : Server) :
  calm s (snd (_on_return i v s)) \/ answered s (snd (_on_return i v s)).
Proof.
  rewrite on_return_unfold.
  destruct (ToString i) as [a|] eqn:Hi; [|left; apply calm_refl].
  destruct (ToString v) as [b|] eqn:Hv; [|left; apply calm_refl].
  set (t := "received return for #" ++ a ++ " -> " ++ b).
  unfold bind.
  destruct (popReturn_cases i (log_event (EvDebug t) s))
    as [E|(P & x & R & Hp & -> & Hfresh & E)]; rewrite E.
  - left. apply Calm_console_debug.
  - right. simpl.
    exists P, x, R, (resolve x), v, [EvDebug t].
    repeat apply conj; auto. constructor; [exact I|constructor].
Qed.

Lemma on_error_cases (i v : value) (s : Server) :
  calm s (snd (_on_error i v s)) \/ answered s (snd (_on_error i v s)).
Proof.
  rewrite on_error_unfold.
  destruct (ToString i) as [a|] eqn:Hi; [|left; apply calm_refl].
  destruct (ToString v) as [b|] eqn:Hv; [|left; apply calm_refl].
  set (t := "received return error #" ++ a ++ ": " ++ b).
  unfold bind.
  destruct (popReturn_cases i (log_event (EvDebug t) s))
    as [E|(P & x & R & Hp & -> & Hfresh & E)]; rewrite E.
  - left. apply Calm_console_debug.
  - right. simpl.
    exists P, x, R, (reject x), v, [EvDebug t].
    repeat apply conj; auto. constructor; [exact I|constructor].
Qed.

(** ** What a message can do *)

Lemma on_message_return (r : revision) (i v : value) (s : Server) :
  on_message r (Document (return_envelope i v)) s = _on_return i v s.
Proof. destruct r; reflexivity. Qed.

Lemma on_message_error (r : revision) (i e : value) (s : Server) :
  on_message r (Document (error_envelope i e)) s = _on_error i e s.
Proof. destruct r; reflexivity. Qed.

Lemma on_message_call (r : revision) (i n a : value) (s : Server) :
  on_message r (Document (call_envelope i n a)) s = _on_call i n a s.
Proof. destruct r; reflexivity. Qed.

Lemma on_message_dispatch (r : revision) (msg : value) (s : Server) :
  on_message r (Document msg) s =
  dispatch (match r with
            | bootstrap_js => Bootstrap._on_close
            | direct_ws => Direct._on_normal_close
            end) msg s.
Proof. destruct r; reflexivity. Qed.

Lemma dispatch_cases (oc : M unit) (msg : value) (s : Server) :
  Calm oc ->
  calm s (snd (dispatch oc msg s)) \/ answered s (snd (dispatch oc msg s)).
Proof.
  intros Hoc. unfold dispatch, bind.
  destruct msg; simpl; try (left; apply calm_refl);
    try (left; apply Hoc).
  match goal with
  | |- context [strict_eq ?t (VStr "return")] =>
      destruct (strict_eq t (VStr "return")); [apply on_return_cases|];
      destruct (strict_eq t (VStr "call")); [left; apply Calm_on_call|];
      destruct (strict_eq t (VStr "error")); [apply on_error_cases|];
      destruct (strict_eq t (VStr "close")); [left; apply Hoc|]
  end.
  left. apply calm_refl.
Qed.

Lemma on_message_cases (r : revision) (d : MessageData) (s : Server) :
  calm s (snd (on_message r d s)) \/ answered s (snd (on_message r d s)).
Proof.
  destruct d as [text|msg].
  - left. destruct r; apply calm_refl.
  - rewrite on_message_dispatch. apply dispatch_cases, Calm_close_message.
Qed.

(** ** [execute], step by step *)

Lemma execute_spec (name : string) (args : value) (s : Server) :
  execute name args s =
  match args with
  | VArr items =>
      let callId := toString10 (add1 (_idCounter s)) in
      match join items ", " with
      | Some joined =>
          (Ok (length (promises s)),
           log_event (EvSend (call_envelope (VStr callId) (VStr name) args))
             (log_event
                (EvDebug ("sending call #" ++ callId ++ ": " ++ name
                          ++ "(" ++ joined ++ ")"))
                (registered s)))
      | None => (Err TypeError, registered s)
      end
  | _ => (Err TypeError, registered s)
  end.
Proof.
  destruct args; try reflexivity.
  unfold execute, bind, modify, get, new_Promise, _addReturn, _send_call, Array_join.
  cbn [fst snd]. destruct (join items ", "); reflexivity.
Qed.

Lemma execute_footprint (name : string) (args : value) (s : Server) :
  _pendingReturns (snd (execute name args s))
    = (_pendingReturns s ++
       [mkPendingReturn (toString10 (add1 (_idCounter s)))
          (ResolveOf (length (promises s))) (RejectOf (length (promises s)))])%list /\
  promises (snd (execute name args s)) = (promises s ++ [Pending])%list /\
  _fns (snd (execute name args s)) = _fns s.
Proof.
  rewrite execute_spec.
  destruct args; try (repeat apply conj; reflexivity).
  cbv zeta. destruct (join items ", "); repeat apply conj; reflexivity.
Qed.

(** ** Invariants of the reachable states *)

Lemma registered_before_sent_app (h evs : list event) :
  registered_before_sent h ->
  (forall e, In e evs -> forall i name args,
      e <> EvSend (call_envelope (VStr i) name args)) ->
  registered_before_sent (h ++ evs).
Proof.
  intros H Hb n i name args Hn.
  destruct (Nat.lt_ge_cases n (length h)) as [Hlt|Hge].
  - rewrite nth_error_app1 in Hn by exact Hlt.
    destruct (H n i name args Hn) as (m & Hm & Hnth).
    exists m. split; [exact Hm|]. rewrite nth_error_app1 by lia. exact Hnth.
  - rewrite nth_error_app2 in Hn by exact Hge.
    apply nth_error_In in Hn.
    now contradiction (Hb _ Hn i name args).
Qed.

Lemma benign_no_call (evs : list event) :
  Forall benign evs ->
  forall e, In e evs -> forall i name args,
      e <> EvSend (call_envelope (VStr i) name args).
Proof.
  intros Hb e He i name args ->.
  rewrite Forall_forall in Hb. exact (Hb _ He (VStr i) name args eq_refl).
Qed.

Lemma registered_before_sent_call (h : list event) (i text : string)
  (name args : value) :
  registered_before_sent h ->
  registered_before_sent
    (h ++ [EvAddReturn i; EvDebug text;
           EvSend (call_envelope (VStr i) name args)]).
Proof.
  intros H n j name' args' Hn.
  destruct (Nat.lt_ge_cases n (length h)) as [Hlt|Hge].
  - rewrite nth_error_app1 in Hn by exact Hlt.
    destruct (H n j name' args' Hn) as (m & Hm & Hnth).
    exists m. split; [exact Hm|]. rewrite nth_error_app1 by lia. exact Hnth.
  - rewrite nth_error_app2 in Hn by exact Hge.
    destruct (n - length h) as [|[|[|k]]] eqn:E; simpl in Hn.
    + discriminate.
    + discriminate.
    + injection Hn as Hi _ _. subst j.
      exists (length h). split; [lia|].
      rewrite nth_error_app2 by lia. now rewrite Nat.sub_diag.
    + destruct k; discriminate.
Qed.

Lemma invariant_calm (s s' : Server) : invariant s -> calm s s' -> invariant s'.
Proof.
  intros (Hi & (He & Hnd) & Hu & Hh) (Hc & Hp & Hq & evs & Hev & Hb).
  unfold invariant, ids_issued, entries_pending, ids_unique, promise_of.
  rewrite Hc, Hp, Hq, Hev.
  repeat apply conj; auto.
  apply registered_before_sent_app; [exact Hh|now apply benign_no_call].
Qed.

Lemma invariant_answered (s s' : Server) : invariant s -> answered s s' -> invariant s'.
Proof.
  intros (Hi & (He & Hnd) & Hu & Hh)
    (P & x & R & f & v & evs & Hp & _ & Hf & Hc & Hp' & Hq & Hev & Hb).
  assert (forall y, In y (P ++ R) -> In y (_pendingReturns s)) as Hsub.
  { intros y Hy. rewrite Hp. apply in_app_or in Hy. apply in_or_app.
    destruct Hy; [now left|right; now right]. }
  rewrite Hp, map_app in Hnd. simpl in Hnd.
  assert (match f with ResolveOf q | RejectOf q => q end = entry_promise x) as Hfx.
  { destruct (He x) as (Hr & Hj & _); [rewrite Hp; apply in_elt|].
    destruct Hf as [-> | ->]; [now rewrite Hr|now rewrite Hj]. }
  unfold invariant, ids_issued, entries_pending, ids_unique, promise_of.
  rewrite Hc, Hp', Hq, Hev.
  repeat apply conj.
  - intros y Hy. apply Hi, Hsub, Hy.
  - intros y Hy. destruct (He y (Hsub y Hy)) as (Hr & Hj & Hpend).
    repeat apply conj; auto.
    rewrite settle_with_other; [exact Hpend|].
    rewrite Hfx. intros E.
    apply (NoDup_remove_2 _ _ _ Hnd). rewrite <- map_app, <- E.
    now apply in_map.
  - rewrite map_app. now apply NoDup_remove_1 in Hnd.
  - intros Hlt. specialize (Hu Hlt). rewrite Hp, map_app in Hu. simpl in Hu.
    rewrite map_app. now apply NoDup_remove_1 in Hu.
  - apply registered_before_sent_app; [exact Hh|now apply benign_no_call].
Qed.

Lemma NoDup_snoc {A} (l : list A) (a : A) : NoDup l -> ~ In a l -> NoDup (l ++ [a]).
Proof.
  intros Hl Ha. apply NoDup_app; [exact Hl|repeat constructor; auto|].
  intros b Hb [<-|[]]. contradiction.
Qed.

Lemma invariant_execute (name : string) (args : value) (s : Server) :
  invariant s -> invariant (snd (execute name args s)).
Proof.
  intros (Hi & (He & Hnd) & Hu & Hh).
  set (s' := snd (execute name args s)).
  set (c := add1 (_idCounter s)).
  set (p := length (promises s)).
  set (e := mkPendingReturn (toString10 c) (ResolveOf p) (RejectOf p)).
  assert (_idCounter s' = c /\
          _pendingReturns s' = (_pendingReturns s ++ [e])%list /\
          promises s' = (promises s ++ [Pending])%list /\
          registered_before_sent (history s')) as (Hc & Hp & Hq & Hh').
  { unfold s'. rewrite execute_spec.
    assert (registered_before_sent (history (registered s))) as Hreg
      by (apply registered_before_sent_app; [exact Hh|];
          intros ? [<-|[]]; discriminate).
    destruct args; try (repeat apply conj; try reflexivity; exact Hreg).
    destruct (join items ", ");
      [|repeat apply conj; try reflexivity; exact Hreg].
    repeat apply conj; try reflexivity.
    simpl. rewrite <- !app_assoc. simpl. now apply registered_before_sent_call. }
  pose proof (add1_ge (_idCounter s)) as [Hge H1].
  pose proof (add1_below (_idCounter s)) as Hbelow.
  fold c in Hge, H1, Hbelow. clearbody s' c.
  assert (forall y, In y (_pendingReturns s) -> entry_promise y < p) as Hlt.
  { intros y Hy. destruct (He y Hy) as (_ & _ & Hpend).
    apply nth_error_Some. unfold promise_of in Hpend. congruence. }
  unfold invariant, ids_issued, entries_pending, ids_unique, promise_of.
  rewrite Hc, Hp, Hq.
  repeat apply conj.
  - intros y Hy. apply in_app_or in Hy. destruct Hy as [Hy|[<-|[]]].
    + destruct (Hi y Hy) as (k & Hk & Hle). exists k. split; [exact Hk|].
      clear - Hle Hge. lia.
    + exists c. split; [reflexivity|]. clear - H1. lia.
  - intros y Hy. apply in_app_or in Hy. destruct Hy as [Hy|[<-|[]]].
    + destruct (He y Hy) as (Hr & Hj & Hpend).
      repeat apply conj; auto.
      rewrite nth_error_app1 by (apply Hlt, Hy). exact Hpend.
    + repeat apply conj; try reflexivity. apply nth_error_middle.
  - rewrite map_app. apply NoDup_snoc; [exact Hnd|].
    intros Hin. apply in_map_iff in Hin. destruct Hin as (y & Hy & Hin).
    apply Hlt in Hin. change (entry_promise e) with p in Hy.
    rewrite Hy in Hin. exact (Nat.lt_irrefl _ Hin).
  - intros Hc53. destruct (Hbelow Hc53) as [Hinc Hb].
    rewrite map_app. apply NoDup_snoc; [now apply Hu|].
    intros Hin. apply in_map_iff in Hin. destruct Hin as (y & Hy & Hin).
    destruct (Hi y Hin) as (k & Hk & Hle).
    change (id e) with (toString10 c) in Hy.
    rewrite Hk in Hy. apply toString10_inj in Hy.
    clear - Hy Hle Hinc. lia.
  - exact Hh'.
Qed.

Lemma invariant_new : invariant new_Server.
Proof.
  repeat apply conj.
  - intros x [].
  - intros x [].
  - constructor.
  - intros _. constructor.
  - intros [|n] ? ? ? Hn; discriminate.
Qed.

Lemma invariant_reachable (r : revision) (s : Server) : reachable r s -> invariant s.
Proof.
  induction 1 as [|i s Hs IH]; [apply invariant_new|].
  destruct i; simpl.
  - eapply invariant_calm; [exact IH|apply Calm_expose].
  - unfold bind. pose proof (invariant_execute name args s IH) as H.
    destruct (execute name args s) as [[p|e] s']; exact H.
  - eapply invariant_calm; [exact IH|apply Calm_on_open].
  - destruct (on_message_cases r d s) as [H|H].
    + eapply invariant_calm; eassumption.
    + eapply invariant_answered; eassumption.
  - eapply invariant_calm; [exact IH|apply Calm_on_error].
  - eapply invariant_calm; [exact IH|apply Calm_on_close].
Qed.

(** ** Correlation of responses with calls *)

Lemma NoDup_map_inj {A B} (f : A -> B) (l : list A) (a b : A) :
  NoDup (map f l) -> In a l -> In b l -> f a = f b -> a = b.
Proof.
  induction l as [|c l IH]; simpl; [tauto|].
  intros Hnd Ha Hb E. inversion Hnd as [|? ? Hc Hnd']; subst.
  destruct Ha as [->|Ha], Hb as [->|Hb]; auto.
  - exfalso. apply Hc. rewrite E. now apply in_map.
  - exfalso. apply Hc. rewrite <- E. now apply in_map.
Qed.

Lemma printable_Some (v : value) : printable v -> exists text, ToString v = Some text.
Proof. unfold printable. destruct (ToString v) as [text|]; [now exists text|congruence]. Qed.




(** ** Registration precedes the send *)

(** C9.  In [execute], the entry [{id, resolve, reject}] for the
    allocated id is pushed on [_pendingReturns] before the [call]
    envelope is handed to the socket: what the step adds to the history
    is the registration, then the debug line and the send (or nothing
    more, when the debug line cannot be built, [args] being no array or
    holding an element that cannot be converted to a string, and the
    call is never sent); the entry is in the table afterwards, its
    promise pending;
    and in every history the peer can produce, each [call] envelope
    sent comes after the registration of its id. *)
Theorem execute_registers_before_sending (r : revision) (s : Server)
  (name : string) (args : value) :
  reachable r s ->
  let callId := toString10 (add1 (_idCounter s)) in
  let p := length (promises s) in
  let s' := snd (execute name args s) in
  history s' =
    (history s ++
     EvAddReturn callId ::
     match args with
     | VArr items =>
         match join items ", " with
         | Some joined =>
             [EvDebug ("sending call #" ++ callId ++ ": " ++ name
                       ++ "(" ++ joined ++ ")");
              EvSend (call_envelope (VStr callId) (VStr name) args)]
         | None => []
         end
     | _ => []
     end)%list /\
  In (mkPendingReturn callId (ResolveOf p) (RejectOf p)) (_pendingReturns s') /\
  promise_of p s' = Some Pending /\
  registered_before_sent (history s').
Proof.
  intros Hr callId p s'.
  assert (registered_before_sent (history s')) as Hh.
  { apply invariant_reachable in Hr.
    now destruct (invariant_execute name args s Hr) as (_ & _ & _ & H). }
  repeat apply conj; try exact Hh; clear Hh; unfold s'; rewrite execute_spec.
  - destruct args; simpl; try reflexivity.
    destruct (join items ", "); simpl; [|reflexivity]. now rewrite <- !app_assoc.
  - destruct args; try destruct (join items ", ");
      simpl; apply in_or_app; right; left; reflexivity.
  - unfold promise_of.
    destruct args; try destruct (join items ", "); simpl; apply nth_error_middle.
Qed.

Lemma execute_registers_before_sending_witness :
  reachable direct_ws new_Server /\
  let s' := snd (execute "get_string" (VArr []) new_Server) in
  history s' =
    [EvAddReturn "1";
     EvDebug "sending call #1: get_string()";
     EvSend (call_envelope (VStr "1") (VStr "get_string") (VArr []))] /\
  In (mkPendingReturn "1" (ResolveOf 0) (RejectOf 0)) (_pendingReturns s') /\
  promise_of 0 s' = Some Pending /\
  registered_before_sent (history s').
Proof.
  split; [constructor|].
  apply (execute_registers_before_sending direct_ws new_Server "get_string" (VArr [])).
  constructor.
Defined.

(** ** Closing the socket *)

(** C2, as the code has it.  A close event rejects nothing and removes
    nothing: the close handler leaves the table of pending calls and
    every promise as they were.  Behind a [Channel] the server writes a
    debug line; on the bare socket it calls [window.close()] when the
    socket had been opened and the close was not clean, and does
    nothing otherwise. *)
Theorem close_keeps_pending_calls (r : revision) (wasClean : bool) (s : Server) :
  fst (on_close r wasClean s) = Ok tt /\
  _pendingReturns (snd (on_close r wasClean s)) = _pendingReturns s /\
  promises (snd (on_close r wasClean s)) = promises s /\
  history (snd (on_close r wasClean s)) =
    (history s ++
     match r, _ws_opened_on s, wasClean with
     | bootstrap_js, _, _ => [EvDebug "ws conn close"]
     | direct_ws, Some _, false => [EvWindowClose]
     | direct_ws, _, _ => []
     end)%list.
Proof.
  destruct r; simpl.
  - repeat apply conj; reflexivity.
  - unfold Direct._on_abnormal_close, bind, get. simpl.
    destruct (_ws_opened_on s), wasClean; simpl;
      repeat apply conj; try reflexivity; now rewrite app_nil_r.
Qed.

(** C2, as stated, fails: the socket opens, one call is made, and the
    socket closes uncleanly while the call is pending; afterwards the
    entry of the call is still in the table and its promise is still
    pending, in either revision. *)
Lemma close_does_not_drain :
  let closed (r : revision) :=
    let opened := snd (on_open r 1577836800000 new_Server) in
    let called := snd (execute "get_string" (VArr []) opened) in
    snd (on_close r false called) in
  (_pendingReturns (closed bootstrap_js)
     = [mkPendingReturn "1" (ResolveOf 0) (RejectOf 0)] /\
   promise_of 0 (closed bootstrap_js) = Some Pending) /\
  (_pendingReturns (closed direct_ws)
     = [mkPendingReturn "1" (ResolveOf 0) (RejectOf 0)] /\
   promise_of 0 (closed direct_ws) = Some Pending /\
   history (closed direct_ws)
     = [EvInit; EvAddReturn "1"; EvDebug "sending call #1: get_string()";
        EvSend (call_envelope (VStr "1") (VStr "get_string") (VArr []));
        EvWindowClose]).
Proof. repeat apply conj; reflexivity. Qed.

(** ** Responses nobody waits for *)

(** C3, as the code has it.  A [return] or [error] envelope whose id has
    no entry in [_pendingReturns], and whose id and payload the debug
    line can print, changes no field of the server and settles no
    promise, but it is not swallowed: after the debug line that
    announces the envelope, [_popReturn] throws
    [no handler for call #<id>], the server neither catches nor logs
    it, and the promise of the message handler is rejected with that
    string. *)
Theorem unknown_id_response_throws (r : revision) (s : Server)
  (i payload : value) (id_text payload_text : string) :
  ToString i = Some id_text ->
  ToString payload = Some payload_text ->
  (forall x, In x (_pendingReturns s) -> i <> VStr (id x)) ->
  on_message r (Document (return_envelope i payload)) s
    = (Err (Thrown (VStr ("no handler for call #" ++ id_text))),
       log_event (EvDebug ("received return for #" ++ id_text
                           ++ " -> " ++ payload_text)) s) /\
  on_message r (Document (error_envelope i payload)) s
    = (Err (Thrown (VStr ("no handler for call #" ++ id_text))),
       log_event (EvDebug ("received return error #" ++ id_text
                           ++ ": " ++ payload_text)) s).
Proof.
  intros Hi Hv H. rewrite on_message_return, on_message_error.
  rewrite on_return_unfold, on_error_unfold, Hi, Hv. unfold bind.
  rewrite !popReturn_missing by exact H.
  unfold no_handler. rewrite Hi. split; reflexivity.
Qed.

(** A second response for an id that was already resolved once. *)
Lemma unknown_id_response_throws_witness :
  let s1 := snd (execute "get_string" (VArr []) new_Server) in
  let s2 := snd (on_message bootstrap_js
                   (Document (return_envelope (VStr "1") (VStr "Hello"))) s1) in
  ToString (VStr "1") = Some "1" /\
  ToString (VStr "again") = Some "again" /\
  (forall x, In x (_pendingReturns s2) -> VStr "1" <> VStr (id x)) /\
  promise_of 0 s2 = Some (Fulfilled (VStr "Hello")) /\
  on_message bootstrap_js (Document (return_envelope (VStr "1") (VStr "again"))) s2
    = (Err (Thrown (VStr "no handler for call #1")),
       log_event (EvDebug "received return for #1 -> again") s2) /\
  on_message bootstrap_js (Document (error_envelope (VStr "1") (VStr "again"))) s2
    = (Err (Thrown (VStr "no handler for call #1")),
       log_event (EvDebug "received return error #1: again") s2).
Proof.
  split; [reflexivity|]. split; [reflexivity|].
  split; [simpl; intros x []|].
  split; [reflexivity|].
  apply (unknown_id_response_throws bootstrap_js
           (snd (on_message bootstrap_js
                   (Document (return_envelope (VStr "1") (VStr "Hello")))
                   (snd (execute "get_string" (VArr []) new_Server))))
           (VStr "1") (VStr "again") "1" "again").
  - reflexivity.
  - reflexivity.
  - simpl; intros x [].
Defined.

(** C3, as stated, fails: a response for an id that was never issued
    makes the message handler raise, in either revision. *)
Lemma unknown_id_response_raises :
  fst (on_message bootstrap_js
         (Document (return_envelope (VStr "7") (VStr "late"))) new_Server)
    = Err (Thrown (VStr "no handler for call #7")) /\
  fst (on_message direct_ws
         (Document (error_envelope (VStr "7") (VStr "late"))) new_Server)
    = Err (Thrown (VStr "no handler for call #7")).
Proof. split; reflexivity. Qed.

(** ** Inbound calls *)

(** [_on_call], past its debug line: the line can be built when id
    and name can be printed and [args] is an array of printable
    elements; otherwise a TypeError leaves the handler before anything
    is done. *)
Lemma on_call_unfold (i n a : value) (s : Server) :
  _on_call i n a s =
  match ToString i, ToString n, a with
  | Some id_text, Some name_text, VArr items =>
      match join items ", " with
      | Some joined =>
          let s1 := log_event
                      (EvDebug ("received call #" ++ id_text ++ ": " ++ name_text
                                ++ "(" ++ joined ++ ")")) s in
          match obj_get name_text (_fns s) with
          | None =>
              (Err (Thrown (VStr ("function '" ++ name_text
                                  ++ "' is not found, registered functions: ["
                                  ++ String.concat "," (Object_keys (_fns s)) ++ "]"))),
               s1)
          | Some fn =>
              match fn_apply fn a with
              | Returns v => _send_return i n a v s1
              | Fails e => (Err e, s1)
              end
          end
      | None => (Err TypeError, s)
      end
  | _, _, _ => (Err TypeError, s)
  end.
Proof.
  unfold _on_call, bind, to_string, Array_join.
  destruct (ToString i) as [id_text|]; [|reflexivity].
  destruct (ToString n) as [name_text|]; [|reflexivity].
  destruct a; try reflexivity.
  destruct (join items ", ") as [joined|]; [|reflexivity].
  cbn [ret console_debug modify get log_event _fns].
  destruct (obj_get name_text (_fns s)) as [fn|]; [|reflexivity].
  destruct (fn_apply fn (VArr items)); reflexivity.
Qed.

(** [_send_return] when its debug line can be built. *)
Lemma send_return_spec (i n : value) (items : list value) (v : value) (s : Server)
  (id_text name_text joined ret_text : string) :
  ToString i = Some id_text ->
  ToString n = Some name_text ->
  join items ", " = Some joined ->
  ToString (null_if_undefined v) = Some ret_text ->
  _send_return i n (VArr items) v s =
  (Ok tt,
   log_event (EvSend (return_envelope i (null_if_undefined v)))
     (log_event
        (EvDebug ("sending return for #" ++ id_text ++ ": " ++ name_text
                  ++ "(" ++ joined ++ ") -> " ++ ret_text)) s)).
Proof.
  intros Hi Hn Hj Hv. unfold _send_return, bind, to_string, Array_join.
  fold (null_if_undefined v). now rewrite Hi, Hn, Hj, Hv.
Qed.

(** The envelopes of type [return] or [error] a history holds are
    those of its parts. *)
Lemma sent_app (h1 h2 : list event) : sent (h1 ++ h2) = (sent h1 ++ sent h2)%list.
Proof.
  induction h1 as [|e h1 IH]; simpl; [reflexivity|].
  destruct e; simpl; now rewrite IH.
Qed.

Lemma replies_app (h1 h2 : list event) :
  replies (h1 ++ h2) = (replies h1 ++ replies h2)%list.
Proof. unfold replies. now rewrite sent_app, filter_app. Qed.

(** C4, as the code has it.  For a [call] envelope whose debug line can
    be built and whose name is neither a key of [_fns] nor a name
    [_fns] inherits from [Object.prototype], nothing is sent back:
    after the debug line that announces the call, [_on_call] throws
    [function '<name>' is not found, registered functions: [...]],
    which rejects the promise of the message handler; no field of the
    server changes. *)
Theorem call_of_unknown_function_throws (r : revision) (s : Server)
  (i n : value) (items : list value) (id_text name_text joined : string) :
  ToString i = Some id_text ->
  ToString n = Some name_text ->
  join items ", " = Some joined ->
  obj_get name_text (_fns s) = None ->
  _fns_proto s = None ->
  inherited name_text = false ->
  on_message r (Document (call_envelope i n (VArr items))) s
    = (Err (Thrown (VStr ("function '" ++ name_text
                          ++ "' is not found, registered functions: ["
                          ++ String.concat "," (Object_keys (_fns s)) ++ "]"))),
       log_event (EvDebug ("received call #" ++ id_text ++ ": " ++ name_text
                           ++ "(" ++ joined ++ ")")) s).
Proof.
  intros Hi Hn Hj H _ _. rewrite on_message_call, on_call_unfold.
  now rewrite Hi, Hn, Hj, H.
Qed.

Lemma call_of_unknown_function_throws_witness :
  let getWorld := mkFunction "getWorld" (fun _ => Returns (VStr "World!")) in
  let s := snd (expose (Mapping [("getWorld", getWorld)]) new_Server) in
  ToString (VStr "3") = Some "3" /\
  ToString (VStr "missingFn") = Some "missingFn" /\
  join [VNum "1"] ", " = Some "1" /\
  obj_get "missingFn" (_fns s) = None /\
  _fns_proto s = None /\
  inherited "missingFn" = false /\
  on_message direct_ws
    (Document (call_envelope (VStr "3") (VStr "missingFn") (VArr [VNum "1"]))) s
    = (Err (Thrown (VStr
         "function 'missingFn' is not found, registered functions: [getWorld]")),
       log_event (EvDebug "received call #3: missingFn(1)") s).
Proof.
  repeat (split; [reflexivity|]).
  apply (call_of_unknown_function_throws direct_ws
           (snd (expose (Mapping [("getWorld",
                                   mkFunction "getWorld" (fun _ => Returns (VStr "World!")))])
                   new_Server))
           (VStr "3") (VStr "missingFn") [VNum "1"] "3" "missingFn" "1");
    reflexivity.
Defined.

(** C4, as stated, fails: the call of an unregistered name makes the
    handler raise, and the only thing the peer does is write its debug
    line: no [error] envelope is sent. *)
Lemma unknown_function_sends_no_error :
  on_message bootstrap_js
    (Document (call_envelope (VStr "5") (VStr "missingFn") (VArr []))) new_Server
    = (Err (Thrown (VStr "function 'missingFn' is not found, registered functions: []")),
       log_event (EvDebug "received call #5: missingFn()") new_Server) /\
  history (log_event (EvDebug "received call #5: missingFn()") new_Server)
    = [EvDebug "received call #5: missingFn()"].
Proof. split; reflexivity. Qed.

(** C5, as the code has it.  When the function registered under the
    name of a [call] envelope (whose debug line can be built) throws,
    or its promise is rejected, the peer sends no reply: the failure
    leaves [_on_call] as it is and rejects the promise of the message
    handler, and no envelope of type [error] or [return] is handed to
    the socket. *)
Theorem failing_handler_propagates (r : revision) (s : Server)
  (i n : value) (items : list value) (fn : Function) (e : exn)
  (id_text name_text joined : string) :
  ToString i = Some id_text ->
  ToString n = Some name_text ->
  join items ", " = Some joined ->
  obj_get name_text (_fns s) = Some fn ->
  fn_apply fn (VArr items) = Fails e ->
  fst (on_message r (Document (call_envelope i n (VArr items))) s) = Err e /\
  replies (history (snd (on_message r (Document (call_envelope i n (VArr items))) s)))
    = replies (history s).
Proof.
  intros Hi Hn Hj H Hf. rewrite on_message_call, on_call_unfold.
  rewrite Hi, Hn, Hj, H, Hf. split; [reflexivity|].
  cbn [snd log_event history]. rewrite replies_app. apply app_nil_r.
Qed.

Lemma failing_handler_propagates_witness :
  let boom := mkFunction "boom" (fun _ => Fails (Thrown (VStr "out of cheese"))) in
  let s := snd (expose (OneFunction boom) new_Server) in
  let call := Document (call_envelope (VStr "9") (VStr "boom") (VArr [VBool true])) in
  ToString (VStr "9") = Some "9" /\
  ToString (VStr "boom") = Some "boom" /\
  join [VBool true] ", " = Some "true" /\
  obj_get "boom" (_fns s) = Some boom /\
  fn_apply boom (VArr [VBool true]) = Fails (Thrown (VStr "out of cheese")) /\
  fst (on_message bootstrap_js call s) = Err (Thrown (VStr "out of cheese")) /\
  replies (history (snd (on_message bootstrap_js call s))) = replies (history s).
Proof.
  repeat (split; [reflexivity|]).
  apply (failing_handler_propagates bootstrap_js
           (snd (expose (OneFunction
                           (mkFunction "boom"
                              (fun _ => Fails (Thrown (VStr "out of cheese")))))
                   new_Server))
           (VStr "9") (VStr "boom") [VBool true]
           (mkFunction "boom" (fun _ => Fails (Thrown (VStr "out of cheese"))))
           (Thrown (VStr "out of cheese")) "9" "boom" "true");
    reflexivity.
Defined.

(** C5, as stated, fails: the handler throws, the message handler
    raises what it threw, and the only thing the peer does is write its
    debug line: no [error] envelope is sent. *)
Lemma failing_handler_sends_no_error :
  let boom := mkFunction "boom" (fun _ => Fails (Thrown (VStr "out of cheese"))) in
  let s := snd (expose (OneFunction boom) new_Server) in
  let after := on_message direct_ws
                 (Document (call_envelope (VStr "9") (VStr "boom") (VArr []))) s in
  fst after = Err (Thrown (VStr "out of cheese")) /\
  history (snd after) = [EvDebug "received call #9: boom()"].
Proof. split; reflexivity. Qed.

(** ** Frames the peer cannot read *)

Lemma dispatch_unknown_type (oc : M unit) (msg : value) (s : Server) :
  msg <> VNull -> msg <> VUndefined -> known_type (type_field msg) = false ->
  dispatch oc msg s = (Ok tt, s).
Proof.
  intros Hnull Hundef Ht. unfold known_type in Ht.
  repeat (apply Bool.orb_false_elim in Ht; destruct Ht as [Ht ?]).
  unfold dispatch, bind, prop.
  destruct msg; try congruence; try reflexivity; simpl in *.
  destruct (obj_get "type" props) as [t|]; simpl; [|reflexivity].
  replace (strict_eq t (VStr "return")) with false by congruence.
  replace (strict_eq t (VStr "call")) with false by congruence.
  replace (strict_eq t (VStr "error")) with false by congruence.
  replace (strict_eq t (VStr "close")) with false by congruence.
  reflexivity.
Qed.

(** C6, as the code has it.  A frame that is not JSON is not dropped
    quietly: the SyntaxError of [JSON.parse] leaves the message handler,
    while no envelope handler runs, nothing is logged and the server is
    left as it was.  A JSON document other than [null] whose [type] is
    none of [return], [call], [error], [close] falls through the
    dispatch: nothing happens, nothing is logged, nothing is raised. *)
Theorem unreadable_frame (r : revision) (s : Server) (d : MessageData) :
  match d with
  | Malformed _ => True
  | Document msg =>
      msg <> VNull /\ msg <> VUndefined /\ known_type (type_field msg) = false
  end ->
  on_message r d s =
  (match d with Malformed _ => Err SyntaxError | Document _ => Ok tt end, s).
Proof.
  destruct d as [text|msg]; intros H.
  - destruct r; reflexivity.
  - destruct H as (Hnull & Hundef & Ht).
    rewrite on_message_dispatch. now apply dispatch_unknown_type.
Qed.

Lemma unreadable_frame_witness :
  let ping := VObj [("type", VStr "ping"); ("id", VStr "1")] in
  let s := snd (execute "get_string" (VArr []) new_Server) in
  (ping <> VNull /\ ping <> VUndefined /\ known_type (type_field ping) = false) /\
  on_message bootstrap_js (Document ping) s = (Ok tt, s).
Proof.
  split; [repeat apply conj; [discriminate|discriminate|reflexivity]|].
  apply (unreadable_frame bootstrap_js
           (snd (execute "get_string" (VArr []) new_Server))
           (Document (VObj [("type", VStr "ping"); ("id", VStr "1")]))).
  repeat apply conj; [discriminate|discriminate|reflexivity].
Defined.

(** The document [null] is not an object to read [type] from. *)
Lemma null_frame_raises (r : revision) (s : Server) :
  on_message r (Document VNull) s = (Err TypeError, s).
Proof. destruct r; reflexivity. Qed.

(** C6, as stated, fails: a frame that is not JSON makes the message
    handler raise a SyntaxError, in either revision. *)
Lemma malformed_frame_raises :
  on_message bootstrap_js (Malformed "{") new_Server = (Err SyntaxError, new_Server) /\
  on_message direct_ws (Malformed "{") new_Server = (Err SyntaxError, new_Server).
Proof. split; reflexivity. Qed.

(** ** Objects as maps *)


Lemma obj_get_app {A} (k : string) (o1 o2 : obj A) :
  obj_get k (o1 ++ o2)%list =
  match obj_get k o1 with Some v => Some v | None => obj_get k o2 end.
Proof.
  induction o1 as [|[k' v'] o1 IH]; simpl; [reflexivity|].
  now destruct (String.eqb k' k).
Qed.

Lemma obj_set_absent {A} (k : string) (v : A) (o : obj A) :
  obj_get k o = None -> obj_set k v o = (o ++ [(k, v)])%list.
Proof.
  induction o as [|[k' v'] o IH]; simpl; [reflexivity|].
  destruct (String.eqb k' k); [discriminate|]. intros H. now rewrite IH.
Qed.


Lemma obj_get_In {A} (k : string) (v : A) (o : obj A) :
  NoDup (map fst o) -> In (k, v) o -> obj_get k o = Some v.
Proof.
  induction o as [|[k' v'] o IH]; simpl; [tauto|].
  intros Hnd [E|Hin]; inversion Hnd as [|? ? Hk Hnd']; subst.
  - injection E as -> ->. now rewrite String.eqb_refl.
  - destruct (String.eqb_spec k' k) as [->|_]; [|now apply IH].
    exfalso. apply Hk. now apply (in_map fst) in Hin.
Qed.

Lemma obj_get_In_key {A} (k : string) (v : A) (o : obj A) :
  obj_get k o = Some v -> In k (map fst o).
Proof.
  induction o as [|[k' v'] o IH]; simpl; [discriminate|].
  destruct (String.eqb_spec k' k) as [->|_]; [now left|]. intros H. right. now apply IH.
Qed.

Lemma hasOwnProperty_false {A} (o : obj A) (k : string) :
  hasOwnProperty o k = false <-> obj_get k o = None.
Proof. unfold hasOwnProperty. destruct (obj_get k o); split; congruence. Qed.


Lemma insert_index_Permutation {A} (x : N * (string * A)) (l : list (N * (string * A))) :
  Permutation (insert_index x l) (x :: l).
Proof.
  induction l as [|y l IH]; simpl; [reflexivity|].
  destruct (fst x <=? fst y)%N; [reflexivity|].
  rewrite IH. apply perm_swap.
Qed.

(** [Object.entries] lists every own property once. *)
Lemma Object_entries_Permutation {A} (o : obj A) : Permutation (Object_entries o) o.
Proof.
  unfold Object_entries.
  induction o as [|[k v] o IH]; simpl; [reflexivity|].
  destruct (array_index k) as [n|].
  - rewrite insert_index_Permutation. simpl. now apply perm_skip.
  - rewrite <- Permutation_middle. now apply perm_skip.
Qed.

Lemma Object_entries_NoDup {A} (o : obj A) :
  NoDup (map fst o) -> NoDup (map fst (Object_entries o)).
Proof.
  intros H. eapply Permutation_NoDup; [|exact H].
  apply Permutation_map, Permutation_sym, Object_entries_Permutation.
Qed.

Lemma Object_entries_singleton {A} (k : string) (v : A) :
  Object_entries [(k, v)] = [(k, v)].
Proof. unfold Object_entries. simpl. now destruct (array_index k). Qed.

(** ** [expose] *)

Lemma set_fns_same (s : Server) : set_fns (_fns s) s = s.
Proof. now destruct s. Qed.

Lemma expose_entry_new (name : string) (fn : Function) (s : Server) :
  hasOwnProperty (_fns s) name = false ->
  name <> "__proto__" ->
  expose_entry (name, fn) s = (Ok tt, set_fns (_fns s ++ [(name, fn)])%list s).
Proof.
  intros H Hp. unfold expose_entry, bind, get. rewrite H.
  apply String.eqb_neq in Hp. rewrite Hp.
  unfold modify. rewrite obj_set_absent; [reflexivity|].
  now apply hasOwnProperty_false.
Qed.

Lemma expose_entry_taken (name : string) (fn : Function) (s : Server) :
  hasOwnProperty (_fns s) name = true ->
  expose_entry (name, fn) s = (Err (already_registered name), s).
Proof. intros H. unfold expose_entry, bind, get. now rewrite H. Qed.

(** Entries with fresh, distinct names are all registered, in order. *)
Lemma forEach_expose_fresh (l : list (string * Function)) (s : Server) :
  NoDup (map fst l) ->
  (forall k, In k (map fst l) -> hasOwnProperty (_fns s) k = false) ->
  (forall k, In k (map fst l) -> k <> "__proto__") ->
  forEach expose_entry l s = (Ok tt, set_fns (_fns s ++ l)%list s).
Proof.
  revert s. induction l as [|[k f] l IH]; intros s Hnd Hfresh Hplain.
  - simpl. now rewrite app_nil_r, set_fns_same.
  - inversion Hnd as [|? ? Hk Hnd']; subst.
    cbn [forEach]. unfold bind.
    rewrite expose_entry_new by (first [apply Hfresh|apply Hplain]; now left).
    rewrite IH.
    + simpl. now rewrite <- app_assoc.
    + exact Hnd'.
    + intros k' Hk'. apply hasOwnProperty_false. simpl. rewrite obj_get_app.
      assert (hasOwnProperty (_fns s) k' = false) as E by (apply Hfresh; now right).
      apply hasOwnProperty_false in E. rewrite E. simpl.
      destruct (String.eqb_spec k k') as [->|_]; [contradiction|reflexivity].
    + intros k' Hk'. apply Hplain. now right.
Qed.




Lemma Object_entries_names {A} (o : obj A) (k : string) :
  In k (map fst (Object_entries o)) <-> In k (map fst o).
Proof.
  split; intros H; (eapply Permutation_in; [|exact H]); apply Permutation_map;
    [|apply Permutation_sym]; apply Object_entries_Permutation.
Qed.










(** * Further properties of the server *)

(** ** How calls are numbered *)

Lemma registered_ids_app (h1 h2 : list event) :
  registered_ids (h1 ++ h2) = (registered_ids h1 ++ registered_ids h2)%list.
Proof.
  induction h1 as [|e h1 IH]; simpl; [reflexivity|].
  destruct e; simpl; now rewrite IH.
Qed.

Lemma registered_ids_benign (evs : list event) :
  Forall benign evs -> registered_ids evs = [].
Proof.
  induction 1 as [|e evs He _ IH]; simpl; [reflexivity|].
  destruct e; simpl in *; auto. contradiction.
Qed.

Lemma decimal_ids_succ (n : N) :
  decimal_ids (n + 1) = (decimal_ids n ++ [toString10 (n + 1)])%list.
Proof.
  unfold decimal_ids.
  replace (N.to_nat (n + 1)) with (S (N.to_nat n)) by lia.
  rewrite seq_S, map_app. simpl. do 3 f_equal. lia.
Qed.

Lemma add1_succ (n : N) : (add1 n < 2 ^ 53)%N -> add1 n = (n + 1)%N.
Proof. unfold add1. destruct (N.ltb_spec n (2 ^ 53)); [reflexivity|lia]. Qed.

(** What a step that is not [execute] does to counter and history. *)
Lemma react_other_history (r : revision) (i : input) (s : Server) :
  (forall name args, i <> Execute name args) ->
  _idCounter (snd (react r i s)) = _idCounter s /\
  exists evs,
    history (snd (react r i s)) = (history s ++ evs)%list /\ Forall benign evs.
Proof.
  intros Hi.
  assert (calm s (snd (react r i s)) \/ answered s (snd (react r i s))) as [H|H].
  { destruct i; simpl.
    - left. apply Calm_expose.
    - now contradiction (Hi name args).
    - left. apply Calm_on_open.
    - apply on_message_cases.
    - left. apply Calm_on_error.
    - left. apply Calm_on_close. }
  - destruct H as (Hc & _ & _ & evs & Hev & Hb). split; [exact Hc|now exists evs].
  - destruct H as (P & x & R & f & v & evs & _ & _ & _ & Hc & _ & _ & Hev & Hb).
    split; [exact Hc|now exists evs].
Qed.

Lemma react_execute (r : revision) (name : string) (args : value) (s : Server) :
  snd (react r (Execute name args) s) = snd (execute name args s).
Proof. simpl. unfold bind. now destruct (execute name args s) as [[p|e] s']. Qed.

(** What [execute] does to counter and history. *)
Lemma execute_history (name : string) (args : value) (s : Server) :
  exists tail,
    history (snd (execute name args s))
      = (history s ++ EvAddReturn (toString10 (add1 (_idCounter s))) :: tail)%list /\
    registered_ids tail = [] /\
    _idCounter (snd (execute name args s)) = add1 (_idCounter s).
Proof.
  rewrite execute_spec.
  destruct args; try (exists []; repeat apply conj; reflexivity).
  cbv zeta.
  destruct (join items ", "); [|exists []; repeat apply conj; reflexivity].
  eexists. cbn [snd log_event history registered].
  rewrite <- !app_assoc. repeat apply conj; reflexivity.
Qed.

(** X1.  The calls a server makes are numbered 1, 2, 3, ... in decimal: as
    long as the counter is below 2^53, the ids pushed on
    [_pendingReturns] since the server was built are exactly the
    renderings of 1 up to the counter, in this order. *)
Theorem call_ids_count_up (r : revision) (s : Server) :
  reachable r s ->
  (_idCounter s < 2 ^ 53)%N ->
  registered_ids (history s) = decimal_ids (_idCounter s).
Proof.
  induction 1 as [|i s Hs IH]; [reflexivity|].
  destruct i;
    try (match goal with
         | |- context [react r ?i s] =>
             destruct (react_other_history r i s ltac:(discriminate))
               as (Hc & evs & Hev & Hb)
         end;
         rewrite Hc, Hev, registered_ids_app, (registered_ids_benign evs Hb),
           app_nil_r;
         exact IH).
  rewrite react_execute.
  destruct (execute_history name args s) as (tail & Hev & Htail & Hc).
  rewrite Hc, Hev. intros Hlt.
  rewrite registered_ids_app. simpl. rewrite Htail.
  rewrite (add1_succ _ Hlt), decimal_ids_succ.
  rewrite IH; [reflexivity|]. apply add1_below in Hlt. tauto.
Qed.

Lemma call_ids_count_up_witness :
  let s := snd (react bootstrap_js (Execute "g" (VArr [VNum "1"]))
             (snd (react bootstrap_js (WsMessage (Malformed "{"))
                (snd (react bootstrap_js (Execute "f" (VArr [])) new_Server))))) in
  reachable bootstrap_js s /\
  (_idCounter s < 2 ^ 53)%N /\
  registered_ids (history s) = decimal_ids (_idCounter s) /\
  decimal_ids (_idCounter s) = ["1"; "2"].
Proof.
  assert (reachable bootstrap_js
            (snd (react bootstrap_js (Execute "g" (VArr [VNum "1"]))
               (snd (react bootstrap_js (WsMessage (Malformed "{"))
                  (snd (react bootstrap_js (Execute "f" (VArr [])) new_Server)))))))
    as Hr by (repeat constructor).
  repeat apply conj; [exact Hr|reflexivity| |reflexivity].
  apply (call_ids_count_up bootstrap_js _ Hr). reflexivity.
Defined.

(** ** The table of pending calls *)

Lemma react_cases (r : revision) (i : input) (s : Server) :
  (exists name args, i = Execute name args) \/
  calm s (snd (react r i s)) \/ answered s (snd (react r i s)).
Proof.
  destruct i; simpl.
  - right. left. apply Calm_expose.
  - left. now exists name, args.
  - right. left. apply Calm_on_open.
  - right. apply on_message_cases.
  - right. left. apply Calm_on_error.
  - right. left. apply Calm_on_close.
Qed.

Lemma registered_ids_incl (h evs : list event) (i : string) :
  In i (registered_ids h) -> In i (registered_ids (h ++ evs)).
Proof. intros H. rewrite registered_ids_app. apply in_or_app. now left. Qed.

Lemma pending_ids_registered (r : revision) (s : Server) :
  reachable r s ->
  forall x, In x (_pendingReturns s) -> In (id x) (registered_ids (history s)).
Proof.
  induction 1 as [|i s Hs IH]; [intros x []|].
  intros x Hx.
  destruct (react_cases r i s) as [(name & args & ->)|[H|H]].
  - rewrite react_execute in *.
    destruct (execute_history name args s) as (tail & Hev & _ & _).
    rewrite Hev, registered_ids_app. apply in_or_app.
    destruct (execute_footprint name args s) as (Hp & _ & _).
    rewrite Hp in Hx. apply in_app_or in Hx.
    destruct Hx as [Hx|[<-|[]]]; [left; now apply IH|right; now left].
  - destruct H as (_ & Hp & _ & evs & Hev & _).
    rewrite Hev. apply registered_ids_incl, IH. now rewrite <- Hp.
  - destruct H as (P & y & R & f & v & evs & Hp & _ & _ & _ & Hp' & _ & Hev & _).
    rewrite Hev. apply registered_ids_incl, IH.
    rewrite Hp' in Hx. rewrite Hp. apply in_app_or in Hx. apply in_or_app.
    destruct Hx; [now left|right; now right].
Qed.

(** X2.  Every entry of [_pendingReturns], in every state the server can
    reach, stands for a call that is really waiting: its id was issued
    by the counter and pushed by [_addReturn], its two functions settle
    one promise, that promise is still pending, no other entry settles
    the same promise, and, while the counter is below 2^53, no other
    entry bears the same id. *)
Theorem pending_calls_are_live (r : revision) (s : Server) (x : PendingReturn) :
  reachable r s ->
  In x (_pendingReturns s) ->
  (exists k, id x = toString10 k /\ (1 <= k <= _idCounter s)%N) /\
  In (id x) (registered_ids (history s)) /\
  resolve x = ResolveOf (entry_promise x) /\
  reject x = RejectOf (entry_promise x) /\
  promise_of (entry_promise x) s = Some Pending /\
  (forall y, In y (_pendingReturns s) -> y <> x ->
     entry_promise y <> entry_promise x /\
     ((_idCounter s < 2 ^ 53)%N -> id y <> id x)).
Proof.
  intros Hr Hx.
  destruct (invariant_reachable r s Hr) as (Hi & (He & Hnd) & Hu & _).
  destruct (He x Hx) as (Hres & Hrej & Hpend).
  split; [now apply Hi|]. split; [now apply (pending_ids_registered r)|].
  split; [exact Hres|]. split; [exact Hrej|]. split; [exact Hpend|].
  intros y Hy Hne. split.
  - intros E. apply Hne. exact (NoDup_map_inj entry_promise _ y x Hnd Hy Hx E).
  - intros Hlt E. apply Hne. exact (NoDup_map_inj id _ y x (Hu Hlt) Hy Hx E).
Qed.

Lemma pending_calls_are_live_witness :
  let s := snd (react direct_ws (Execute "g" (VArr []))
             (snd (react direct_ws (Execute "f" (VArr [])) new_Server))) in
  let x := mkPendingReturn "2" (ResolveOf 1) (RejectOf 1) in
  reachable direct_ws s /\
  In x (_pendingReturns s) /\
  (exists k, id x = toString10 k /\ (1 <= k <= _idCounter s)%N) /\
  In (id x) (registered_ids (history s)) /\
  resolve x = ResolveOf (entry_promise x) /\
  reject x = RejectOf (entry_promise x) /\
  promise_of (entry_promise x) s = Some Pending /\
  (forall y, In y (_pendingReturns s) -> y <> x ->
     entry_promise y <> entry_promise x /\
     ((_idCounter s < 2 ^ 53)%N -> id y <> id x)).
Proof.
  assert (reachable direct_ws
            (snd (react direct_ws (Execute "g" (VArr []))
               (snd (react direct_ws (Execute "f" (VArr [])) new_Server)))))
    as Hr by (repeat constructor).
  split; [exact Hr|]. split; [simpl; tauto|].
  apply (pending_calls_are_live direct_ws _ _ Hr). simpl; tauto.
Defined.

(** ** Responses *)

(** The state a response leaves, when it finds the entry [x]. *)
Lemma answered_state (s : Server) (P R : list PendingReturn) (x : PendingReturn)
  (f : settle) (v : value) (text : string) :
  invariant s ->
  NoDup (map id (_pendingReturns s)) ->
  _pendingReturns s = (P ++ x :: R)%list ->
  f = resolve x \/ f = reject x ->
  let s' := set_promises (settle_with f v (promises s))
              (set_pendingReturns (P ++ R) (log_event (EvDebug text) s)) in
  promise_of (entry_promise x) s'
    = Some (match f with
            | ResolveOf _ => Fulfilled v
            | RejectOf _ => Rejected (Thrown v)
            end) /\
  (forall y, In y (_pendingReturns s') -> id y <> id x) /\
  (forall y, In y (_pendingReturns s) -> y <> x ->
     In y (_pendingReturns s') /\ promise_of (entry_promise y) s' = Some Pending).
Proof.
  intros (_ & (He & Hndp) & _ & _) Hnd Hp Hf s'.
  assert (In x (_pendingReturns s)) as Hx by (rewrite Hp; apply in_elt).
  destruct (He x Hx) as (Hres & Hrej & Hpend).
  unfold promise_of in *. simpl.
  repeat apply conj.
  - destruct Hf as [-> | ->]; [rewrite Hres|rewrite Hrej]; simpl;
      now apply settle_at_same.
  - intros y Hy E. rewrite Hp, map_app in Hnd. simpl in Hnd.
    apply (NoDup_remove_2 _ _ _ Hnd). rewrite <- map_app, <- E. now apply in_map.
  - intros y Hy Hne.
    assert (In y (P ++ R)) as Hy'.
    { rewrite Hp in Hy. apply in_app_or in Hy. apply in_or_app.
      destruct Hy as [Hy|[Hy|Hy]]; [now left|congruence|now right]. }
    split; [exact Hy'|].
    destruct (He y Hy) as (_ & _ & Hpy).
    rewrite settle_with_other; [exact Hpy|].
    intros E. apply Hne.
    apply (NoDup_map_inj entry_promise _ y x Hndp Hy Hx).
    rewrite E. destruct Hf as [-> | ->]; [now rewrite Hres|now rewrite Hrej].
Qed.

Lemma entry_is_first (s : Server) (x : PendingReturn) :
  NoDup (map id (_pendingReturns s)) ->
  In x (_pendingReturns s) ->
  exists P R,
    _pendingReturns s = (P ++ x :: R)%list /\ (forall y, In y P -> id y <> id x).
Proof.
  intros Hnd Hx. destruct (in_split _ _ Hx) as (P & R & Hp).
  exists P, R. split; [exact Hp|].
  intros y Hy E. rewrite Hp, map_app in Hnd. simpl in Hnd.
  apply (NoDup_remove_2 _ _ _ Hnd). apply in_or_app. left.
  rewrite <- E. now apply in_map.
Qed.


(** X3.  A [return] envelope for a pending call, in any state the server can
    reach while the counter is below 2^53: the handler succeeds, the
    promise of that call is fulfilled with the value, its entry leaves
    the table (no entry with that id is left), every other pending call
    stays in the table with its promise pending, and nothing is sent.
    The value is one the debug line of [_on_return] can print. *)
Theorem return_fulfils_its_call (r : revision) (s : Server)
  (x : PendingReturn) (v : value) :
  reachable r s ->
  (_idCounter s < 2 ^ 53)%N ->
  In x (_pendingReturns s) ->
  printable v ->
  exists s',
    on_message r (Document (return_envelope (VStr (id x)) v)) s = (Ok tt, s') /\
    promise_of (entry_promise x) s' = Some (Fulfilled v) /\
    (forall y, In y (_pendingReturns s') -> id y <> id x) /\
    (forall y, In y (_pendingReturns s) -> y <> x ->
       In y (_pendingReturns s') /\ promise_of (entry_promise y) s' = Some Pending) /\
    sent (history s') = sent (history s) /\
    _fns s' = _fns s.
Proof.
  intros Hr Hlt Hx Hv.
  destruct (printable_Some v Hv) as (text & Htext).
  pose proof (invariant_reachable r s Hr) as Hinv.
  assert (NoDup (map id (_pendingReturns s))) as Hnd
    by (destruct Hinv as (_ & _ & Hu & _); now apply Hu).
  destruct (entry_is_first s x Hnd Hx) as (P & R & Hp & Hfirst).
  eexists. split.
  - rewrite on_message_return. apply (on_return_found s P R x v text Htext Hp Hfirst).
  - destruct (answered_state s P R x (resolve x) v
                ("received return for #" ++ id x ++ " -> " ++ text)
                Hinv Hnd Hp (or_introl eq_refl)) as (H1 & H2 & H3).
    destruct Hinv as (_ & (He & _) & _). destruct (He x Hx) as (Hres & _).
    assert (match resolve x with
            | ResolveOf _ => Fulfilled v
            | RejectOf _ => Rejected (Thrown v)
            end = Fulfilled v) as E by now rewrite Hres.
    rewrite E in H1.
    repeat apply conj; try assumption; try reflexivity.
    simpl. rewrite sent_app. simpl. apply app_nil_r.
Qed.

Lemma return_fulfils_its_call_witness :
  let s := snd (react bootstrap_js (Execute "g" (VArr []))
             (snd (react bootstrap_js (Execute "f" (VArr [])) new_Server))) in
  let x := mkPendingReturn "1" (ResolveOf 0) (RejectOf 0) in
  reachable bootstrap_js s /\
  (_idCounter s < 2 ^ 53)%N /\
  In x (_pendingReturns s) /\
  printable (VNum "3") /\
  exists s',
    on_message bootstrap_js (Document (return_envelope (VStr "1") (VNum "3"))) s
      = (Ok tt, s') /\
    promise_of 0 s' = Some (Fulfilled (VNum "3")) /\
    (forall y, In y (_pendingReturns s') -> id y <> "1") /\
    (forall y, In y (_pendingReturns s) -> y <> x ->
       In y (_pendingReturns s') /\ promise_of (entry_promise y) s' = Some Pending) /\
    sent (history s') = sent (history s) /\
    _fns s' = _fns s.
Proof.
  assert (reachable bootstrap_js
            (snd (react bootstrap_js (Execute "g" (VArr []))
               (snd (react bootstrap_js (Execute "f" (VArr [])) new_Server)))))
    as Hr by (repeat constructor).
  split; [exact Hr|]. split; [reflexivity|]. split; [simpl; tauto|].
  split; [discriminate|].
  apply (return_fulfils_its_call bootstrap_js _
           (mkPendingReturn "1" (ResolveOf 0) (RejectOf 0)) (VNum "3") Hr).
  - reflexivity.
  - simpl; tauto.
  - discriminate.
Defined.

(** X4.  An [error] envelope for a pending call, under the same conditions:
    the handler succeeds, the promise of that call is rejected with the
    error the envelope carries, its entry leaves the table, every other
    pending call stays in the table with its promise pending, and
    nothing is sent.  The error is one the debug line of [_on_error]
    can print. *)
Theorem error_rejects_its_call (r : revision) (s : Server)
  (x : PendingReturn) (e : value) :
  reachable r s ->
  (_idCounter s < 2 ^ 53)%N ->
  In x (_pendingReturns s) ->
  printable e ->
  exists s',
    on_message r (Document (error_envelope (VStr (id x)) e)) s = (Ok tt, s') /\
    promise_of (entry_promise x) s' = Some (Rejected (Thrown e)) /\
    (forall y, In y (_pendingReturns s') -> id y <> id x) /\
    (forall y, In y (_pendingReturns s) -> y <> x ->
       In y (_pendingReturns s') /\ promise_of (entry_promise y) s' = Some Pending) /\
    sent (history s') = sent (history s) /\
    _fns s' = _fns s.
Proof.
  intros Hr Hlt Hx Hv.
  destruct (printable_Some e Hv) as (text & Htext).
  pose proof (invariant_reachable r s Hr) as Hinv.
  assert (NoDup (map id (_pendingReturns s))) as Hnd
    by (destruct Hinv as (_ & _ & Hu & _); now apply Hu).
  destruct (entry_is_first s x Hnd Hx) as (P & R & Hp & Hfirst).
  eexists. split.
  - rewrite on_message_error. apply (on_error_found s P R x e text Htext Hp Hfirst).
  - destruct (answered_state s P R x (reject x) e
                ("received return error #" ++ id x ++ ": " ++ text)
                Hinv Hnd Hp (or_intror eq_refl)) as (H1 & H2 & H3).
    destruct Hinv as (_ & (He & _) & _). destruct (He x Hx) as (_ & Hrej & _).
    assert (match reject x with
            | ResolveOf _ => Fulfilled e
            | RejectOf _ => Rejected (Thrown e)
            end = Rejected (Thrown e)) as E by now rewrite Hrej.
    rewrite E in H1.
    repeat apply conj; try assumption; try reflexivity.
    simpl. rewrite sent_app. simpl. apply app_nil_r.
Qed.

Lemma error_rejects_its_call_witness :
  let s := snd (react direct_ws (Execute "g" (VArr []))
             (snd (react direct_ws (Execute "f" (VArr [])) new_Server))) in
  let x := mkPendingReturn "2" (ResolveOf 1) (RejectOf 1) in
  reachable direct_ws s /\
  (_idCounter s < 2 ^ 53)%N /\
  In x (_pendingReturns s) /\
  printable (VStr "ZeroDivisionError") /\
  exists s',
    on_message direct_ws
      (Document (error_envelope (VStr "2") (VStr "ZeroDivisionError"))) s
      = (Ok tt, s') /\
    promise_of 1 s' = Some (Rejected (Thrown (VStr "ZeroDivisionError"))) /\
    (forall y, In y (_pendingReturns s') -> id y <> "2") /\
    (forall y, In y (_pendingReturns s) -> y <> x ->
       In y (_pendingReturns s') /\ promise_of (entry_promise y) s' = Some Pending) /\
    sent (history s') = sent (history s) /\
    _fns s' = _fns s.
Proof.
  assert (reachable direct_ws
            (snd (react direct_ws (Execute "g" (VArr []))
               (snd (react direct_ws (Execute "f" (VArr [])) new_Server)))))
    as Hr by (repeat constructor).
  split; [exact Hr|]. split; [reflexivity|]. split; [simpl; tauto|].
  split; [discriminate|].
  apply (error_rejects_its_call direct_ws _
           (mkPendingReturn "2" (ResolveOf 1) (RejectOf 1))
           (VStr "ZeroDivisionError") Hr).
  - reflexivity.
  - simpl; tauto.
  - discriminate.
Defined.

(** X5.  A response for a call that was already answered: once the [return]
    for a pending call has been handled, a further [return] or [error]
    with the same id finds no entry; the handler raises
    [no handler for call #<id>], and the promise keeps the value of the
    first response.  The payloads are values the debug lines can
    print. *)
Theorem late_response_is_refused (r : revision) (s : Server)
  (x : PendingReturn) (v w : value) :
  reachable r s ->
  (_idCounter s < 2 ^ 53)%N ->
  In x (_pendingReturns s) ->
  printable v -> printable w ->
  let s' := snd (on_message r (Document (return_envelope (VStr (id x)) v)) s) in
  let again := on_message r (Document (return_envelope (VStr (id x)) w)) s' in
  let failed := on_message r (Document (error_envelope (VStr (id x)) w)) s' in
  fst again = Err (Thrown (VStr ("no handler for call #" ++ id x))) /\
  fst failed = Err (Thrown (VStr ("no handler for call #" ++ id x))) /\
  promise_of (entry_promise x) (snd again) = Some (Fulfilled v) /\
  promise_of (entry_promise x) (snd failed) = Some (Fulfilled v) /\
  _pendingReturns (snd again) = _pendingReturns s' /\
  _pendingReturns (snd failed) = _pendingReturns s'.
Proof.
  intros Hr Hlt Hx Hv Hw s'.
  destruct (printable_Some v Hv) as (text & Htext).
  destruct (printable_Some w Hw) as (text' & Htext').
  pose proof (invariant_reachable r s Hr) as Hinv.
  assert (NoDup (map id (_pendingReturns s))) as Hnd
    by (destruct Hinv as (_ & _ & Hu & _); now apply Hu).
  destruct (entry_is_first s x Hnd Hx) as (P & R & Hp & Hfirst).
  destruct (answered_state s P R x (resolve x) v
              ("received return for #" ++ id x ++ " -> " ++ text)
              Hinv Hnd Hp (or_introl eq_refl)) as (H1 & H2 & _).
  assert (match resolve x with
          | ResolveOf _ => Fulfilled v
          | RejectOf _ => Rejected (Thrown v)
          end = Fulfilled v) as E.
  { destruct Hinv as (_ & (He & _) & _). destruct (He x Hx) as (Hres & _).
    now rewrite Hres. }
  rewrite E in H1. clear E.
  assert (s' = set_promises (settle_with (resolve x) v (promises s))
                 (set_pendingReturns (P ++ R)
                    (log_event (EvDebug ("received return for #" ++ id x
                                         ++ " -> " ++ text)) s))) as Hs'.
  { unfold s'. rewrite on_message_return.
    now rewrite (on_return_found s P R x v text Htext Hp Hfirst). }
  rewrite <- Hs' in H1, H2.
  assert (forall y, In y (_pendingReturns s') -> VStr (id x) <> VStr (id y)) as Hgone.
  { intros y Hy [= E]. now apply (H2 y Hy). }
  intros again failed. unfold again, failed.
  rewrite on_message_return, on_message_error.
  rewrite on_return_unfold, on_error_unfold, Htext'. cbn [ToString]. unfold bind.
  rewrite !popReturn_missing by exact Hgone.
  repeat apply conj; try reflexivity; exact H1.
Qed.

Lemma late_response_is_refused_witness :
  let s := snd (react bootstrap_js (Execute "f" (VArr [])) new_Server) in
  let x := mkPendingReturn "1" (ResolveOf 0) (RejectOf 0) in
  let s' := snd (on_message bootstrap_js
                   (Document (return_envelope (VStr "1") (VStr "first"))) s) in
  let again := on_message bootstrap_js
                 (Document (return_envelope (VStr "1") (VStr "second"))) s' in
  let failed := on_message bootstrap_js
                  (Document (error_envelope (VStr "1") (VStr "second"))) s' in
  reachable bootstrap_js s /\
  (_idCounter s < 2 ^ 53)%N /\
  In x (_pendingReturns s) /\
  printable (VStr "first") /\ printable (VStr "second") /\
  fst again = Err (Thrown (VStr "no handler for call #1")) /\
  fst failed = Err (Thrown (VStr "no handler for call #1")) /\
  promise_of 0 (snd again) = Some (Fulfilled (VStr "first")) /\
  promise_of 0 (snd failed) = Some (Fulfilled (VStr "first")) /\
  _pendingReturns (snd again) = _pendingReturns s' /\
  _pendingReturns (snd failed) = _pendingReturns s'.
Proof.
  assert (reachable bootstrap_js
            (snd (react bootstrap_js (Execute "f" (VArr [])) new_Server)))
    as Hr by (repeat constructor).
  split; [exact Hr|]. split; [reflexivity|]. split; [simpl; tauto|].
  split; [discriminate|]. split; [discriminate|].
  apply (late_response_is_refused bootstrap_js _
           (mkPendingReturn "1" (ResolveOf 0) (RejectOf 0))
           (VStr "first") (VStr "second") Hr).
  - reflexivity.
  - simpl; tauto.
  - discriminate.
  - discriminate.
Defined.

(** ** What does not settle a call *)

Lemma on_return_outcome (i v : value) (s : Server) :
  calm s (snd (_on_return i v s)) \/
  exists P x R,
    i = VStr (id x) /\
    _pendingReturns s = (P ++ x :: R)%list /\
    _pendingReturns (snd (_on_return i v s)) = (P ++ R)%list /\
    promises (snd (_on_return i v s)) = settle_with (resolve x) v (promises s).
Proof.
  rewrite on_return_unfold.
  destruct (ToString i) as [a|] eqn:Hi; [|left; apply calm_refl].
  destruct (ToString v) as [b|] eqn:Hv; [|left; apply calm_refl].
  unfold bind.
  destruct (popReturn_cases i (log_event (EvDebug ("received return for #" ++ a ++ " -> " ++ b)) s))
    as [E|(P & x & R & Hp & -> & Hfresh & E)]; rewrite E.
  - left. apply Calm_console_debug.
  - right. exists P, x, R.
    repeat apply conj; try reflexivity. exact Hp.
Qed.

Lemma on_error_outcome (i v : value) (s : Server) :
  calm s (snd (_on_error i v s)) \/
  exists P x R,
    i = VStr (id x) /\
    _pendingReturns s = (P ++ x :: R)%list /\
    _pendingReturns (snd (_on_error i v s)) = (P ++ R)%list /\
    promises (snd (_on_error i v s)) = settle_with (reject x) v (promises s).
Proof.
  rewrite on_error_unfold.
  destruct (ToString i) as [a|] eqn:Hi; [|left; apply calm_refl].
  destruct (ToString v) as [b|] eqn:Hv; [|left; apply calm_refl].
  unfold bind.
  destruct (popReturn_cases i (log_event (EvDebug ("received return error #" ++ a ++ ": " ++ b)) s))
    as [E|(P & x & R & Hp & -> & Hfresh & E)]; rewrite E.
  - left. apply Calm_console_debug.
  - right. exists P, x, R.
    repeat apply conj; try reflexivity. exact Hp.
Qed.

(** A message either leaves table and promises alone, or it is a
    response that bears the id of the entry it removes. *)
Lemma on_message_outcome (r : revision) (d : MessageData) (s : Server) :
  calm s (snd (on_message r d s)) \/
  exists P x R f v,
    answers (WsMessage d) (id x) = true /\
    (f = resolve x \/ f = reject x) /\
    _pendingReturns s = (P ++ x :: R)%list /\
    _pendingReturns (snd (on_message r d s)) = (P ++ R)%list /\
    promises (snd (on_message r d s)) = settle_with f v (promises s).
Proof.
  destruct d as [text|msg]; [left; destruct r; apply calm_refl|].
  rewrite on_message_dispatch.
  pose proof (Calm_close_message r) as Hoc.
  set (oc := match r with
             | bootstrap_js => Bootstrap._on_close
             | direct_ws => Direct._on_normal_close
             end) in *.
  clearbody oc.
  unfold dispatch, bind.
  destruct msg; simpl; try (left; apply calm_refl).
  unfold answers.
  destruct (obj_get "type" props) as [t|]; simpl; [|left; apply calm_refl].
  destruct (strict_eq t (VStr "return")) eqn:Et.
  { destruct (on_return_outcome
                match obj_get "id" props with Some x => x | None => VUndefined end
                match obj_get "ret" props with Some x => x | None => VUndefined end s)
      as [H|(P & x & R & Hi & Hp & Hp' & Hq)]; [now left|].
    right. exists P, x, R, (resolve x).
    eexists. repeat apply conj; try eassumption; [|now left].
    rewrite Hi. simpl. apply String.eqb_refl. }
  destruct (strict_eq t (VStr "call")); [left; apply Calm_on_call|].
  destruct (strict_eq t (VStr "error")) eqn:Ee.
  { destruct (on_error_outcome
                match obj_get "id" props with Some x => x | None => VUndefined end
                match obj_get "error" props with Some x => x | None => VUndefined end s)
      as [H|(P & x & R & Hi & Hp & Hp' & Hq)]; [now left|].
    right. exists P, x, R, (reject x).
    eexists. repeat apply conj; try eassumption; [|now right].
    rewrite Hi. simpl. apply String.eqb_refl. }
  destruct (strict_eq t (VStr "close")); [left; apply Hoc|].
  left. apply calm_refl.
Qed.

Lemma react_outcome (r : revision) (i : input) (s : Server) :
  (exists name args, i = Execute name args) \/
  calm s (snd (react r i s)) \/
  exists P x R f v,
    answers i (id x) = true /\
    (f = resolve x \/ f = reject x) /\
    _pendingReturns s = (P ++ x :: R)%list /\
    _pendingReturns (snd (react r i s)) = (P ++ R)%list /\
    promises (snd (react r i s)) = settle_with f v (promises s).
Proof.
  destruct i; simpl react.
  - right. left. apply Calm_expose.
  - left. now exists name, args.
  - right. left. apply Calm_on_open.
  - right. apply on_message_outcome.
  - right. left. apply Calm_on_error.
  - right. left. apply Calm_on_close.
Qed.

Lemma settle_at_settled (ps : list promise_state) (p q : promise)
  (st st' : promise_state) :
  nth_error ps p = Some st -> st <> Pending ->
  nth_error (settle_at q st' ps) p = Some st.
Proof.
  revert p q. induction ps as [|a ps IH]; intros p q Hp Hst; [now destruct p|].
  destruct q as [|q], p as [|p]; simpl in *.
  - destruct a; congruence.
  - now destruct a.
  - now destruct a.
  - destruct a; simpl; now apply IH.
Qed.

(** X6.  A pending call waits for its own response and for nothing else:
    whatever happens to the server other than a [return] or [error]
    envelope bearing the id of the call -- another call, another
    response, an inbound call, an unreadable frame, a function being
    exposed, the socket opening, failing or closing -- its entry stays
    in the table and its promise stays pending. *)
Theorem pending_call_waits (r : revision) (s : Server) (x : PendingReturn)
  (i : input) :
  reachable r s ->
  In x (_pendingReturns s) ->
  answers i (id x) = false ->
  In x (_pendingReturns (snd (react r i s))) /\
  promise_of (entry_promise x) (snd (react r i s)) = Some Pending.
Proof.
  intros Hr Hx Hans.
  destruct (invariant_reachable r s Hr) as (_ & (He & Hnd) & _ & _).
  destruct (He x Hx) as (_ & _ & Hpend). unfold promise_of in *.
  destruct (react_outcome r i s)
    as [(name & args & ->)|[H|(P & y & R & f & v & Hy & Hf & Hp & Hp' & Hq)]].
  - rewrite react_execute.
    destruct (execute_footprint name args s) as (Hp & Hq & _).
    rewrite Hp, Hq. split; [apply in_or_app; now left|].
    rewrite nth_error_app1; [exact Hpend|].
    apply nth_error_Some. congruence.
  - destruct H as (_ & Hp & Hq & _). now rewrite Hp, Hq.
  - assert (y <> x) as Hne by (intros ->; congruence).
    assert (In y (_pendingReturns s)) as Hyin by (rewrite Hp; apply in_elt).
    rewrite Hp', Hq. split.
    + rewrite Hp in Hx. apply in_app_or in Hx. apply in_or_app.
      destruct Hx as [Hx|[Hx|Hx]]; [now left|congruence|now right].
    + rewrite settle_with_other; [exact Hpend|].
      intros E. apply Hne. symmetry.
      apply (NoDup_map_inj entry_promise _ x y Hnd Hx Hyin).
      rewrite E. destruct (He y Hyin) as (Hres & Hrej & _).
      destruct Hf as [-> | ->]; [now rewrite Hres|now rewrite Hrej].
Qed.

Lemma pending_call_waits_witness :
  let s := snd (react direct_ws (Execute "g" (VArr []))
             (snd (react direct_ws (Execute "f" (VArr [])) new_Server))) in
  let x := mkPendingReturn "1" (ResolveOf 0) (RejectOf 0) in
  let i := WsMessage (Document (return_envelope (VStr "2") (VStr "two"))) in
  reachable direct_ws s /\
  In x (_pendingReturns s) /\
  answers i (id x) = false /\
  In x (_pendingReturns (snd (react direct_ws i s))) /\
  promise_of 0 (snd (react direct_ws i s)) = Some Pending.
Proof.
  assert (reachable direct_ws
            (snd (react direct_ws (Execute "g" (VArr []))
               (snd (react direct_ws (Execute "f" (VArr [])) new_Server)))))
    as Hr by (repeat constructor).
  split; [exact Hr|]. split; [simpl; tauto|]. split; [reflexivity|].
  apply (pending_call_waits direct_ws _
           (mkPendingReturn "1" (ResolveOf 0) (RejectOf 0))
           (WsMessage (Document (return_envelope (VStr "2") (VStr "two")))) Hr).
  - simpl; tauto.
  - reflexivity.
Defined.

(** X7.  A promise that has been settled is never changed again: whatever
    the page or the socket does next, a fulfilled promise keeps its
    value and a rejected one keeps its reason. *)
Theorem settled_promises_are_final (r : revision) (s : Server) (i : input)
  (p : promise) (st : promise_state) :
  promise_of p s = Some st ->
  st <> Pending ->
  promise_of p (snd (react r i s)) = Some st.
Proof.
  unfold promise_of. intros Hp Hst.
  destruct (react_outcome r i s)
    as [(name & args & ->)|[H|(P & y & R & f & v & _ & _ & _ & _ & Hq)]].
  - rewrite react_execute.
    destruct (execute_footprint name args s) as (_ & Hq & _).
    rewrite Hq, nth_error_app1; [exact Hp|].
    apply nth_error_Some. congruence.
  - destruct H as (_ & _ & Hq & _). now rewrite Hq.
  - rewrite Hq. destruct f; simpl; now apply settle_at_settled.
Qed.

Lemma settled_promises_are_final_witness :
  let s := snd (react bootstrap_js
                  (WsMessage (Document (return_envelope (VStr "1") (VStr "one"))))
                  (snd (react bootstrap_js (Execute "f" (VArr [])) new_Server))) in
  let i := WsMessage (Document (error_envelope (VStr "1") (VStr "late"))) in
  promise_of 0 s = Some (Fulfilled (VStr "one")) /\
  Fulfilled (VStr "one") <> Pending /\
  promise_of 0 (snd (react bootstrap_js i s)) = Some (Fulfilled (VStr "one")).
Proof.
  split; [reflexivity|]. split; [discriminate|].
  apply (settled_promises_are_final bootstrap_js _
           (WsMessage (Document (error_envelope (VStr "1") (VStr "late")))) 0).
  - reflexivity.
  - discriminate.
Defined.

(** ** What a method leaves alone *)

Lemma framed_fns : framed _fns.
Proof. repeat apply conj; reflexivity. Qed.

Lemma framed_ws_opened_on : framed _ws_opened_on.
Proof. repeat apply conj; reflexivity. Qed.

Lemma Keeps_ret {B A} (field : Server -> B) (a : A) : Keeps field (ret a).
Proof. intros s; reflexivity. Qed.

Lemma Keeps_throw {B A} (field : Server -> B) (e : exn) : Keeps field (@throw A e).
Proof. intros s; reflexivity. Qed.

Lemma Keeps_get {B} (field : Server -> B) : Keeps field get.
Proof. intros s; reflexivity. Qed.

Lemma Keeps_bind {B A C} (field : Server -> B) (m : M A) (k : A -> M C) :
  Keeps field m -> (forall a, Keeps field (k a)) -> Keeps field (bind m k).
Proof.
  intros Hm Hk s. unfold bind.
  specialize (Hm s). destruct (m s) as [[a|e] s1]; simpl in *.
  - now rewrite Hk.
  - exact Hm.
Qed.

Lemma Keeps_modify {B} (field : Server -> B) (f : Server -> Server) :
  (forall s, field (f s) = field s) -> Keeps field (modify f).
Proof. intros H s. apply H. Qed.

Lemma Keeps_log {B} (field : Server -> B) (e : event) :
  framed field -> Keeps field (modify (log_event e)).
Proof. intros (H & _) s. apply H. Qed.

Lemma Keeps_console_debug {B} (field : Server -> B) (text : string) :
  framed field -> Keeps field (console_debug text).
Proof. apply Keeps_log. Qed.

Lemma Keeps_console_error {B} (field : Server -> B) :
  framed field -> Keeps field console_error.
Proof. apply Keeps_log. Qed.

Lemma Keeps_window_close {B} (field : Server -> B) :
  framed field -> Keeps field window_close.
Proof. apply Keeps_log. Qed.

Lemma Keeps_ws_send {B} (field : Server -> B) (data : value) :
  framed field -> Keeps field (ws_send data).
Proof. apply Keeps_log. Qed.

Lemma Keeps_JSON_parse {B} (field : Server -> B) (d : MessageData) :
  Keeps field (JSON_parse d).
Proof. destruct d; [apply Keeps_throw|apply Keeps_ret]. Qed.

Lemma Keeps_prop {B} (field : Server -> B) (v : value) (k : string) :
  Keeps field (prop v k).
Proof. destruct v; first [apply Keeps_throw|apply Keeps_ret]. Qed.

Lemma Keeps_to_string {B} (field : Server -> B) (v : value) :
  Keeps field (to_string v).
Proof. unfold to_string. destruct (ToString v); [apply Keeps_ret|apply Keeps_throw]. Qed.

Lemma Keeps_Array_join {B} (field : Server -> B) (args : value) (sep : string) :
  Keeps field (Array_join args sep).
Proof.
  destruct args; try apply Keeps_throw. simpl.
  destruct (join items sep); [apply Keeps_ret|apply Keeps_throw].
Qed.

Lemma Keeps_call_settle {B} (field : Server -> B) (f : settle) (v : value) :
  framed field -> Keeps field (call_settle f v).
Proof. intros (_ & _ & _ & H) s. apply H. Qed.

Lemma Keeps_addReturn {B} (field : Server -> B) (i : string) (f g : settle) :
  framed field -> Keeps field (_addReturn i f g).
Proof.
  intros (Hlog & Hpend & _) s. unfold _addReturn, modify. simpl snd.
  now rewrite Hlog, Hpend.
Qed.

Create HintDb keeps.

#[local] Hint Resolve Keeps_ret Keeps_throw Keeps_get Keeps_log
  Keeps_console_debug Keeps_console_error Keeps_window_close Keeps_ws_send
  Keeps_JSON_parse Keeps_prop Keeps_to_string Keeps_Array_join Keeps_call_settle
  Keeps_addReturn : keeps.

Ltac keeps_step :=
  first [ solve [auto with keeps] | apply Keeps_bind; [|intros ?] ].

Lemma Keeps_popReturn {B} (field : Server -> B) (i : value) :
  framed field -> Keeps field (_popReturn i).
Proof.
  intros Hf. unfold _popReturn. apply Keeps_bind; [auto with keeps|intros s].
  destruct (findIndex _ _) as [n|]; [|repeat keeps_step].
  destruct (nth_error _ n) as [x|]; [|auto with keeps].
  apply Keeps_bind; [|auto with keeps].
  apply Keeps_modify. apply Hf.
Qed.

Lemma Keeps_new_Promise {B} (field : Server -> B)
  (executor : settle -> settle -> M unit) :
  framed field -> (forall f g, Keeps field (executor f g)) ->
  Keeps field (new_Promise executor).
Proof.
  intros (_ & _ & _ & Hprom) He s. unfold new_Promise.
  specialize (He (ResolveOf (length (promises s))) (RejectOf (length (promises s)))
                (set_promises (promises s ++ [Pending]) s)).
  destruct (executor _ _ _) as [[u|e] s2]; simpl in *.
  - now rewrite He.
  - now rewrite Hprom, He.
Qed.

Lemma Keeps_send_call {B} (field : Server -> B) (i name : string) (args : value) :
  framed field -> Keeps field (_send_call i name args).
Proof. intros Hf. unfold _send_call. repeat keeps_step. Qed.

Lemma Keeps_send_return {B} (field : Server -> B) (i name args v : value) :
  framed field -> Keeps field (_send_return i name args v).
Proof. intros Hf. unfold _send_return. repeat keeps_step. Qed.

Lemma Keeps_execute {B} (field : Server -> B) (name : string) (args : value) :
  framed field -> Keeps field (execute name args).
Proof.
  intros Hf. unfold execute.
  apply Keeps_bind; [apply Keeps_modify; intros s; apply Hf|intros _].
  apply Keeps_bind; [auto with keeps|intros s].
  apply Keeps_bind; [apply Keeps_new_Promise; auto with keeps|intros p].
  apply Keeps_bind; [now apply Keeps_send_call|auto with keeps].
Qed.

Lemma Keeps_on_return {B} (field : Server -> B) (i v : value) :
  framed field -> Keeps field (_on_return i v).
Proof.
  intros Hf. unfold _on_return.
  do 3 (apply Keeps_bind; [auto with keeps|intros ?]).
  apply Keeps_bind; [now apply Keeps_popReturn|auto with keeps].
Qed.

Lemma Keeps_on_error {B} (field : Server -> B) (i v : value) :
  framed field -> Keeps field (_on_error i v).
Proof.
  intros Hf. unfold _on_error.
  do 3 (apply Keeps_bind; [auto with keeps|intros ?]).
  apply Keeps_bind; [now apply Keeps_popReturn|auto with keeps].
Qed.

Lemma Keeps_on_call {B} (field : Server -> B) (i name args : value) :
  framed field -> Keeps field (_on_call i name args).
Proof.
  intros Hf. unfold _on_call.
  do 4 (apply Keeps_bind; [auto with keeps|intros ?]).
  apply Keeps_bind; [auto with keeps|intros s].
  destruct (obj_get _ _) as [fn|]; [|auto with keeps].
  destruct (fn_apply fn args); [now apply Keeps_send_return|auto with keeps].
Qed.

Lemma Keeps_dispatch {B} (field : Server -> B) (oc : M unit) (msg : value) :
  framed field -> Keeps field oc -> Keeps field (dispatch oc msg).
Proof.
  intros Hf Hoc. unfold dispatch.
  apply Keeps_bind; [auto with keeps|intros t].
  destruct (strict_eq t (VStr "return")).
  { do 2 (apply Keeps_bind; [auto with keeps|intros ?]).
    now apply Keeps_on_return. }
  destruct (strict_eq t (VStr "call")).
  { do 3 (apply Keeps_bind; [auto with keeps|intros ?]).
    now apply Keeps_on_call. }
  destruct (strict_eq t (VStr "error")).
  { do 2 (apply Keeps_bind; [auto with keeps|intros ?]).
    now apply Keeps_on_error. }
  destruct (strict_eq t (VStr "close")); auto with keeps.
Qed.

Lemma Keeps_on_message {B} (field : Server -> B) (r : revision) (d : MessageData) :
  framed field -> Keeps field (on_message r d).
Proof.
  intros Hf.
  destruct r; simpl; unfold Bootstrap.ws_onmessage, Bootstrap.onMessage,
    Direct._on_ws_message;
    (apply Keeps_bind; [auto with keeps|intros msg]);
    apply Keeps_dispatch; auto;
    unfold Bootstrap._on_close, Direct._on_normal_close; repeat keeps_step.
Qed.

Lemma Keeps_on_error_event {B} (field : Server -> B) (r : revision) :
  framed field -> Keeps field (on_error r).
Proof. intros Hf. destruct r; simpl; now apply Keeps_console_error. Qed.

Lemma Keeps_on_close {B} (field : Server -> B) (r : revision) (wasClean : bool) :
  framed field -> Keeps field (on_close r wasClean).
Proof.
  intros Hf. destruct r; simpl.
  - now apply Keeps_console_debug.
  - unfold Direct._on_abnormal_close.
    apply Keeps_bind; [auto with keeps|intros s].
    destruct (_ && _); auto with keeps.
Qed.

Lemma Keeps_forEach {B A} (field : Server -> B) (f : A -> M unit) (l : list A) :
  (forall x, Keeps field (f x)) -> Keeps field (forEach f l).
Proof.
  intros Hf. induction l as [|x l IH]; simpl; [apply Keeps_ret|].
  apply Keeps_bind; [apply Hf|intros _; exact IH].
Qed.

Lemma on_open_keeps_fns (r : revision) (now : N) : Keeps _fns (on_open r now).
Proof. destruct r; intros s; reflexivity. Qed.

Lemma expose_keeps_ws_opened_on (arg : fnOrFns) : Keeps _ws_opened_on (expose arg).
Proof.
  unfold expose. apply Keeps_forEach. intros [name fn]. unfold expose_entry.
  apply Keeps_bind; [apply Keeps_get|intros s].
  destruct (hasOwnProperty (_fns s) name); [apply Keeps_throw|].
  destruct (String.eqb name "__proto__"); apply Keeps_modify; reflexivity.
Qed.

Lemma react_keeps_fns (r : revision) (i : input) (s : Server) :
  (forall arg, i <> Expose arg) -> _fns (snd (react r i s)) = _fns s.
Proof.
  pose proof framed_fns as Hf. intros Hi. destruct i; simpl react.
  - now destruct (Hi arg).
  - apply (Keeps_bind _fns); [now apply Keeps_execute|intros; apply Keeps_ret].
  - apply on_open_keeps_fns.
  - now apply Keeps_on_message.
  - now apply Keeps_on_error_event.
  - now apply Keeps_on_close.
Qed.

Lemma react_keeps_ws_opened_on (r : revision) (i : input) (s : Server) :
  is_open i = false -> _ws_opened_on (snd (react r i s)) = _ws_opened_on s.
Proof.
  pose proof framed_ws_opened_on as Hf. intros Hi. destruct i; simpl react.
  - apply expose_keeps_ws_opened_on.
  - apply (Keeps_bind _ws_opened_on); [now apply Keeps_execute|intros; apply Keeps_ret].
  - discriminate.
  - now apply Keeps_on_message.
  - now apply Keeps_on_error_event.
  - now apply Keeps_on_close.
Qed.

(** ** The registry over time *)

Lemma run_app (r : revision) (l1 l2 : list input) (s : Server) :
  run r (l1 ++ l2) s = run r l2 (run r l1 s).
Proof. revert s. induction l1 as [|i l1 IH]; intros s; simpl; [reflexivity|apply IH]. Qed.

Lemma reachable_run (r : revision) (inputs : list input) (s : Server) :
  reachable r s -> reachable r (run r inputs s).
Proof.
  revert s. induction inputs as [|i l IH]; intros s Hs; simpl; [exact Hs|].
  apply IH. now constructor.
Qed.

(** X8.  Nothing but [expose] writes the registry: calls made, messages
    received (calls, responses, close messages, frames the server cannot
    read) and socket events leave [_fns] as it was. *)
Theorem registry_changes_only_by_expose (r : revision) (inputs : list input)
  (s : Server) :
  (forall i, In i inputs -> forall arg, i <> Expose arg) ->
  _fns (run r inputs s) = _fns s.
Proof.
  revert s. induction inputs as [|i l IH]; intros s H; simpl; [reflexivity|].
  rewrite IH by (intros j Hj; apply H; now right).
  apply react_keeps_fns. apply H. now left.
Qed.

Lemma registry_changes_only_by_expose_witness :
  let f := mkFunction "f" (fun _ => Returns VUndefined) in
  let s := snd (expose (OneFunction f) new_Server) in
  let inputs :=
    [WsOpen 7; Execute "g" (VArr []);
     WsMessage (Document (call_envelope (VStr "1") (VStr "f") (VArr [])));
     WsMessage (Document (return_envelope (VStr "1") VNull));
     WsMessage (Malformed "{"); WsError; WsClose false] in
  (forall i, In i inputs -> forall arg, i <> Expose arg) /\
  _fns (run direct_ws inputs s) = [("f", f)].
Proof.
  assert (forall i,
            In i [WsOpen 7; Execute "g" (VArr []);
                  WsMessage (Document (call_envelope (VStr "1") (VStr "f") (VArr [])));
                  WsMessage (Document (return_envelope (VStr "1") VNull));
                  WsMessage (Malformed "{"); WsError; WsClose false] ->
            forall arg, i <> Expose arg) as H.
  { intros i Hi arg. simpl in Hi.
    repeat (destruct Hi as [<-|Hi]; [discriminate|]). destruct Hi. }
  split; [exact H|].
  exact (registry_changes_only_by_expose direct_ws _
           (snd (expose (OneFunction (mkFunction "f" (fun _ => Returns VUndefined)))
                   new_Server)) H).
Defined.

Lemma expose_entry_cases (k : string) (f : Function) (s : Server) :
  expose_entry (k, f) s = (Err (already_registered k), s) \/
  (k = "__proto__" /\
   expose_entry (k, f) s = (Ok tt, set_fns_proto (Some f) s)) \/
  (k <> "__proto__" /\
   obj_get k (_fns s) = None /\
   expose_entry (k, f) s = (Ok tt, set_fns (_fns s ++ [(k, f)])%list s)).
Proof.
  destruct (hasOwnProperty (_fns s) k) eqn:Hk.
  - left. now apply expose_entry_taken.
  - right. destruct (String.eqb_spec k "__proto__") as [->|Hp].
    + left. split; [reflexivity|]. unfold expose_entry, bind, get. now rewrite Hk.
    + right. split; [exact Hp|].
      split; [now apply hasOwnProperty_false|now apply expose_entry_new].
Qed.

Lemma forEach_expose_keeps_binding (l : list (string * Function)) (s : Server)
  (name : string) (fn : Function) :
  obj_get name (_fns s) = Some fn ->
  obj_get name (_fns (snd (forEach expose_entry l s))) = Some fn.
Proof.
  revert s. induction l as [|[k f] l IH]; intros s H; [exact H|].
  cbn [forEach]. unfold bind.
  destruct (expose_entry_cases k f s) as [E|[[_ E]|(_ & _ & E)]]; rewrite E.
  - exact H.
  - now apply IH.
  - apply IH. simpl. now rewrite obj_get_app, H.
Qed.

Lemma forEach_expose_names (l : list (string * Function)) (s : Server) (name : string) :
  In name (map fst (_fns (snd (forEach expose_entry l s)))) ->
  In name (map fst (_fns s)) \/ In name (map fst l).
Proof.
  revert s. induction l as [|[k f] l IH]; intros s H; [now left|].
  cbn [forEach] in H. unfold bind in H.
  destruct (expose_entry_cases k f s) as [E|[[_ E]|(_ & _ & E)]]; rewrite E in H.
  - now left.
  - destruct (IH _ H) as [H'|H']; [now left|right; now right].
  - destruct (IH _ H) as [H'|H']; [|right; now right].
    simpl in H'. rewrite map_app in H'. apply in_app_or in H'.
    destruct H' as [H'|[<-|[]]]; [now left|right; now left].
Qed.

Lemma forEach_expose_keeps_proto (l : list (string * Function)) (s : Server) :
  (forall k, In k (map fst l) -> k <> "__proto__") ->
  _fns_proto (snd (forEach expose_entry l s)) = _fns_proto s.
Proof.
  revert s. induction l as [|[k f] l IH]; intros s H; [reflexivity|].
  assert (forall k', In k' (map fst l) -> k' <> "__proto__") as H'
    by (intros k' Hk'; apply H; now right).
  cbn [forEach]. unfold bind.
  destruct (expose_entry_cases k f s) as [E|[[Hk E]|(_ & _ & E)]]; rewrite E.
  - reflexivity.
  - exfalso. apply (H k); [now left|exact Hk].
  - now rewrite IH.
Qed.

Lemma expose_names (arg : fnOrFns) (s : Server) (name : string) :
  In name (map fst (_fns (snd (expose arg s)))) ->
  In name (map fst (_fns s)) \/ In name (exposed_names arg).
Proof.
  intros H. apply forEach_expose_names in H. destruct H as [H|H]; [now left|].
  right. apply (proj1 (Object_entries_names _ _)) in H.
  destruct arg as [f|m]; [|exact H].
  simpl. destruct (String.eqb (fn_name f) "__proto__"); [destruct H|exact H].
Qed.

Lemma expose_keeps_proto (arg : fnOrFns) (s : Server) :
  (forall k, In k (exposed_names arg) -> k <> "__proto__") ->
  _fns_proto (snd (expose arg s)) = _fns_proto s.
Proof.
  intros H. unfold expose. apply forEach_expose_keeps_proto.
  intros k Hk. apply (proj1 (Object_entries_names _ _)) in Hk.
  apply H. destruct arg as [f|m]; [|exact Hk].
  simpl. destruct (String.eqb (fn_name f) "__proto__"); [destruct Hk|exact Hk].
Qed.

Lemma framed_fns_proto : framed _fns_proto.
Proof. repeat apply conj; reflexivity. Qed.

Lemma react_keeps_fns_proto (r : revision) (i : input) (s : Server) :
  (forall arg, i <> Expose arg) -> _fns_proto (snd (react r i s)) = _fns_proto s.
Proof.
  pose proof framed_fns_proto as Hf. intros Hi. destruct i; simpl react.
  - now destruct (Hi arg).
  - apply (Keeps_bind _fns_proto); [now apply Keeps_execute|intros; apply Keeps_ret].
  - destruct r; reflexivity.
  - now apply Keeps_on_message.
  - now apply Keeps_on_error_event.
  - now apply Keeps_on_close.
Qed.

Lemma react_keeps_binding (r : revision) (i : input) (s : Server)
  (name : string) (fn : Function) :
  obj_get name (_fns s) = Some fn ->
  obj_get name (_fns (snd (react r i s))) = Some fn.
Proof.
  intros H.
  destruct i;
    try (rewrite react_keeps_fns; [exact H|intros; discriminate]).
  simpl react. unfold expose. now apply forEach_expose_keeps_binding.
Qed.

Lemma react_keeps_plain (r : revision) (i : input) (s : Server) :
  plain_registry s ->
  (forall arg, i = Expose arg -> forall k, In k (exposed_names arg) -> plain_key k) ->
  plain_registry (snd (react r i s)).
Proof.
  intros [Hproto Hs] Hi. split.
  - destruct i;
      try (rewrite react_keeps_fns_proto; [exact Hproto|intros; discriminate]).
    simpl react. rewrite expose_keeps_proto; [exact Hproto|].
    intros k Hk. now apply (Hi arg).
  - intros name Hname.
    destruct i;
      try (rewrite react_keeps_fns in Hname; [now apply Hs|intros; discriminate]).
    simpl react in Hname. apply expose_names in Hname.
    destruct Hname as [H|H]; [now apply Hs|now apply (Hi arg)].
Qed.

(** X9.  A function, once exposed, stays exposed under its name, as
    long as the duplicate check is the inherited [hasOwnProperty]:
    starting from a registry of plain names, over any sequence of
    inputs whose [expose] calls (successful or failing) bring plain
    names only, no call, message or socket event removes the name or
    binds it to another function, and the registry still holds plain
    names only. *)
Theorem registered_functions_stay (r : revision) (inputs : list input)
  (s : Server) (name : string) (fn : Function) :
  plain_registry s ->
  (forall arg, In (Expose arg) inputs ->
     forall k, In k (exposed_names arg) -> plain_key k) ->
  obj_get name (_fns s) = Some fn ->
  obj_get name (_fns (run r inputs s)) = Some fn /\
  plain_registry (run r inputs s).
Proof.
  revert s. induction inputs as [|i l IH]; intros s Hs Hin H; simpl; [now split|].
  apply IH.
  - apply react_keeps_plain; [exact Hs|]. intros arg ->. apply Hin. now left.
  - intros arg Harg. apply Hin. now right.
  - now apply react_keeps_binding.
Qed.

Lemma registered_functions_stay_witness :
  let f := mkFunction "f" (fun _ => Returns (VNum "1")) in
  let g := mkFunction "f" (fun _ => Returns (VNum "2")) in
  let s := snd (expose (OneFunction f) new_Server) in
  let inputs :=
    [Expose (OneFunction g); Expose (Mapping [("a", g); ("f", g)]);
     WsMessage (Document (VObj [("type", VStr "close")])); WsClose false] in
  plain_registry s /\
  (forall arg, In (Expose arg) inputs ->
     forall k, In k (exposed_names arg) -> plain_key k) /\
  obj_get "f" (_fns s) = Some f /\
  obj_get "f" (_fns (run bootstrap_js inputs s)) = Some f /\
  plain_registry (run bootstrap_js inputs s).
Proof.
  assert (plain_registry
            (snd (expose (OneFunction (mkFunction "f" (fun _ => Returns (VNum "1"))))
                    new_Server))) as Hs.
  { split; [reflexivity|]. intros k [<-|[]]. split; discriminate. }
  assert (forall arg,
            In (Expose arg)
               [Expose (OneFunction (mkFunction "f" (fun _ => Returns (VNum "2"))));
                Expose (Mapping [("a", mkFunction "f" (fun _ => Returns (VNum "2")));
                                 ("f", mkFunction "f" (fun _ => Returns (VNum "2")))]);
                WsMessage (Document (VObj [("type", VStr "close")])); WsClose false] ->
            forall k, In k (exposed_names arg) -> plain_key k) as Hin.
  { intros arg [E|[E|[E|[E|[]]]]] k Hk; try discriminate E;
      injection E as <-; simpl in Hk;
      repeat (destruct Hk as [<-|Hk]; [split; discriminate|]); destruct Hk. }
  split; [exact Hs|]. split; [exact Hin|]. split; [reflexivity|].
  apply (registered_functions_stay bootstrap_js _
           (snd (expose (OneFunction (mkFunction "f" (fun _ => Returns (VNum "1"))))
                   new_Server)) "f" _ Hs Hin).
  reflexivity.
Defined.

(** ** When the window closes *)

Lemma opened_run (inputs : list input) (s : Server) :
  opened (run direct_ws inputs s) = opened s || existsb is_open inputs.
Proof.
  revert s. induction inputs as [|i l IH]; intros s; simpl.
  - now rewrite Bool.orb_false_r.
  - rewrite IH. destruct (is_open i) eqn:Hi.
    + destruct i; try discriminate. simpl. now rewrite Bool.orb_true_r.
    + unfold opened at 1. now rewrite react_keeps_ws_opened_on.
Qed.

(** X10.  The revision with [_on_abnormal_close]: when the socket closes,
    the window is closed exactly when the socket had been opened at some
    point since the server was built and the close is not clean;
    otherwise the close event does nothing.  The handler never fails. *)
Theorem abnormal_close_after_open (inputs : list input) (wasClean : bool) :
  let s := run direct_ws inputs new_Server in
  react direct_ws (WsClose wasClean) s =
  (Ok tt,
   if existsb is_open inputs && negb wasClean
   then log_event EvWindowClose s else s).
Proof.
  intros s. simpl react. unfold Direct._on_abnormal_close, bind, get.
  change (match _ws_opened_on s with Some _ => true | None => false end)
    with (opened s).
  unfold s. rewrite opened_run. simpl orb.
  now destruct (existsb is_open inputs), wasClean.
Qed.

(** X11.  A message of type [close], whatever else it carries: both
    revisions write one debug line and close the window; the pending
    calls, the promises and the registry stay as they are. *)
Theorem close_message_closes_window (r : revision) (props : obj value)
  (s : Server) :
  obj_get "type" props = Some (VStr "close") ->
  on_message r (Document (VObj props)) s =
  (Ok tt, log_event EvWindowClose (log_event (EvDebug "received close message") s)).
Proof.
  intros H. rewrite on_message_dispatch. unfold dispatch, bind, prop, ret.
  rewrite H.
  destruct r; reflexivity.
Qed.

Lemma close_message_closes_window_witness :
  on_message bootstrap_js
    (Document (VObj [("id", VStr "1"); ("type", VStr "close")])) new_Server =
  (Ok tt,
   log_event EvWindowClose (log_event (EvDebug "received close message") new_Server)).
Proof.
  apply (close_message_closes_window bootstrap_js
           [("id", VStr "1"); ("type", VStr "close")] new_Server).
  reflexivity.
Defined.

(** ** Calls whose arguments are not an array *)

(** X12.  An inbound [call] whose [args] is not an array fails with a
    TypeError while the debug line is being built: nothing is logged,
    no function is looked up or run (be it registered or not), nothing
    is sent, and the server is unchanged. *)
Theorem inbound_call_needs_array_args (r : revision) (s : Server)
  (i n a : value) :
  (forall items, a <> VArr items) ->
  on_message r (Document (call_envelope i n a)) s = (Err TypeError, s).
Proof.
  intros H. rewrite on_message_call, on_call_unfold.
  destruct (ToString i), (ToString n), a; try reflexivity; now destruct (H items).
Qed.

Lemma inbound_call_needs_array_args_witness :
  let f := mkFunction "f" (fun _ => Returns (VNum "1")) in
  let s := snd (expose (OneFunction f) new_Server) in
  (forall items, VStr "ab" <> VArr items) /\
  on_message direct_ws (Document (call_envelope (VStr "4") (VStr "f") (VStr "ab"))) s
    = (Err TypeError, s).
Proof.
  split; [discriminate|].
  apply (inbound_call_needs_array_args direct_ws
           (snd (expose (OneFunction (mkFunction "f" (fun _ => Returns (VNum "1"))))
                   new_Server))
           (VStr "4") (VStr "f") (VStr "ab")).
  discriminate.
Defined.

(** X13.  [execute] with [args] that is not an array fails with a TypeError
    in [_send_call], after the call has been numbered and registered:
    the counter has moved, the entry sits in [_pendingReturns] with its
    promise pending, and no envelope has been sent for it. *)
Theorem execute_needs_array_args (s : Server) (name : string) (args : value) :
  (forall items, args <> VArr items) ->
  exists s',
    execute name args s = (Err TypeError, s') /\
    _idCounter s' = add1 (_idCounter s) /\
    _pendingReturns s' =
      (_pendingReturns s ++
       [mkPendingReturn (toString10 (add1 (_idCounter s)))
          (ResolveOf (length (promises s))) (RejectOf (length (promises s)))])%list /\
    promise_of (length (promises s)) s' = Some Pending /\
    sent (history s') = sent (history s) /\
    _fns s' = _fns s.
Proof.
  intros H. exists (registered s). rewrite execute_spec.
  split; [destruct args; try reflexivity; now destruct (H items)|].
  unfold promise_of. cbn [registered _idCounter _pendingReturns promises history _fns].
  repeat apply conj; try reflexivity.
  - apply nth_error_middle.
  - rewrite sent_app. simpl. apply app_nil_r.
Qed.

Lemma execute_needs_array_args_witness :
  (forall items, VNull <> VArr items) /\
  exists s',
    execute "f" VNull new_Server = (Err TypeError, s') /\
    _idCounter s' = 1%N /\
    _pendingReturns s' = [mkPendingReturn "1" (ResolveOf 0) (RejectOf 0)] /\
    promise_of 0 s' = Some Pending /\
    sent (history s') = [] /\
    _fns s' = [].
Proof.
  split; [discriminate|].
  apply (execute_needs_array_args new_Server "f" VNull). discriminate.
Defined.

(** ** From [expose] to the reply *)

(** What an inbound call of a registered function that returns does,
    when the two debug lines can be built. *)
Lemma on_call_replies (r : revision) (s : Server)
  (i n : value) (items : list value) (fn : Function) (v : value)
  (id_text name_text joined ret_text : string) :
  ToString i = Some id_text ->
  ToString n = Some name_text ->
  join items ", " = Some joined ->
  ToString (null_if_undefined v) = Some ret_text ->
  obj_get name_text (_fns s) = Some fn ->
  fn_apply fn (VArr items) = Returns v ->
  on_message r (Document (call_envelope i n (VArr items))) s =
  (Ok tt,
   log_event (EvSend (return_envelope i (null_if_undefined v)))
     (log_event
        (EvDebug ("sending return for #" ++ id_text ++ ": " ++ name_text
                  ++ "(" ++ joined ++ ") -> " ++ ret_text))
        (log_event
           (EvDebug ("received call #" ++ id_text ++ ": " ++ name_text
                     ++ "(" ++ joined ++ ")")) s))).
Proof.
  intros Hi Hn Hj Hv H Hf. rewrite on_message_call, on_call_unfold.
  rewrite Hi, Hn, Hj, H, Hf. cbv zeta.
  now apply send_return_spec.
Qed.

(** X14.  In a registry whose duplicate check is the inherited
    [hasOwnProperty], after a batch of functions has been exposed under
    plain names that were free, every function of the batch is
    registered under its name, and an inbound call of any of them
    (whose debug lines can be built) runs the function the batch gave
    for that name on the arguments of the envelope and, when the
    function returns, the peer replies with exactly one envelope: a
    [return] with the id of the call and the value returned, [null]
    standing for [undefined]. *)
Theorem exposed_function_answers_calls (r : revision) (s : Server)
  (m : obj Function) (k : string) (f : Function) (i : value)
  (items : list value) (v : value) :
  plain_registry s ->
  NoDup (map fst m) ->
  (forall n, In n (map fst m) -> plain_key n) ->
  (forall n, In n (map fst m) -> hasOwnProperty (_fns s) n = false) ->
  In (k, f) m ->
  printable i -> printable (VArr items) -> printable (null_if_undefined v) ->
  fn_apply f (VArr items) = Returns v ->
  exists s1 s2,
    expose (Mapping m) s = (Ok tt, s1) /\
    (forall n g, In (n, g) m -> obj_get n (_fns s1) = Some g) /\
    on_message r (Document (call_envelope i (VStr k) (VArr items))) s1 = (Ok tt, s2) /\
    replies (history s2)
      = (replies (history s) ++ [return_envelope i (null_if_undefined v)])%list.
Proof.
  intros _ Hnd Hplain Hfresh Hin Hi Hitems Hret Hv.
  destruct (printable_Some i Hi) as (id_text & Hid).
  destruct (printable_Some _ Hret) as (ret_text & Hrt).
  assert (exists joined, join items ", " = Some joined) as (joined & Hj).
  { unfold printable in Hitems. cbn [ToString] in Hitems. unfold join.
    destruct (strings_of ToString items); [eexists; reflexivity|congruence]. }
  assert (expose (Mapping m) s
          = (Ok tt, set_fns (_fns s ++ Object_entries m)%list s)) as E.
  { unfold expose. apply forEach_expose_fresh.
    - now apply Object_entries_NoDup.
    - intros n Hn. apply Hfresh. now apply Object_entries_names.
    - intros n Hn. apply Hplain. now apply Object_entries_names. }
  assert (forall n g, In (n, g) m ->
            obj_get n (_fns (set_fns (_fns s ++ Object_entries m)%list s)) = Some g) as G.
  { intros n g Hng. cbn [_fns set_fns]. rewrite obj_get_app.
    assert (obj_get n (_fns s) = None) as Hk
      by (apply hasOwnProperty_false, Hfresh; now apply (in_map fst) in Hng).
    rewrite Hk. apply obj_get_In.
    - now apply Object_entries_NoDup.
    - eapply Permutation_in; [|exact Hng].
      apply Permutation_sym, Object_entries_Permutation. }
  eexists. eexists. split; [exact E|]. split; [exact G|].
  split.
  - apply (on_call_replies r _ i (VStr k) items f v id_text k joined ret_text
             Hid eq_refl Hj Hrt (G k f Hin) Hv).
  - cbn [log_event history set_fns]. rewrite !replies_app. cbn. now rewrite !app_nil_r.
Qed.

Lemma exposed_function_answers_calls_witness :
  let hello := mkFunction "hello" (fun _ => Returns VUndefined) in
  let add := mkFunction "add" (fun _ => Returns (VNum "3")) in
  let m := [("hello", hello); ("add", add)] in
  plain_registry new_Server /\
  NoDup (map fst m) /\
  (forall n, In n (map fst m) -> plain_key n) /\
  (forall n, In n (map fst m) -> hasOwnProperty (_fns new_Server) n = false) /\
  In ("hello", hello) m /\
  printable (VStr "8") /\ printable (VArr []) /\
  printable (null_if_undefined VUndefined) /\
  fn_apply hello (VArr []) = Returns VUndefined /\
  exists s1 s2,
    expose (Mapping m) new_Server = (Ok tt, s1) /\
    (forall n g, In (n, g) m -> obj_get n (_fns s1) = Some g) /\
    on_message bootstrap_js
      (Document (call_envelope (VStr "8") (VStr "hello") (VArr []))) s1 = (Ok tt, s2) /\
    replies (history s2) = [return_envelope (VStr "8") VNull].
Proof.
  assert (NoDup ["hello"; "add"]) as Hnd.
  { repeat constructor; simpl; intros H;
      repeat (destruct H as [H|H]; try discriminate H); exact H. }
  assert (plain_registry new_Server) as Hreg by (split; [reflexivity|intros k []]).
  assert (forall n, In n ["hello"; "add"] -> plain_key n) as Hplain.
  { intros n Hn. simpl in Hn.
    repeat (destruct Hn as [<-|Hn]; [split; discriminate|]). destruct Hn. }
  split; [exact Hreg|]. split; [exact Hnd|]. split; [exact Hplain|].
  split; [reflexivity|]. split; [simpl; tauto|].
  split; [discriminate|]. split; [discriminate|]. split; [discriminate|].
  split; [reflexivity|].
  apply (exposed_function_answers_calls bootstrap_js new_Server
           [("hello", mkFunction "hello" (fun _ => Returns VUndefined));
            ("add", mkFunction "add" (fun _ => Returns (VNum "3")))]
           "hello" (mkFunction "hello" (fun _ => Returns VUndefined))
           (VStr "8") [] VUndefined Hreg Hnd Hplain).
  - reflexivity.
  - simpl; tauto.
  - discriminate.
  - discriminate.
  - discriminate.
  - reflexivity.
Defined.

(** ** A call and its response *)

Lemma fresh_call_id (r : revision) (s : Server) (y : PendingReturn) :
  reachable r s -> (_idCounter s < 2 ^ 53)%N ->
  In y (_pendingReturns s) ->
  id y <> toString10 (add1 (_idCounter s)).
Proof.
  intros Hr Hlt Hy E.
  destruct (invariant_reachable r s Hr) as (Hi & _).
  destruct (Hi y Hy) as (k & Hk & Hle).
  rewrite Hk in E. apply toString10_inj in E.
  unfold add1 in E. destruct (N.ltb_spec (_idCounter s) (2 ^ 53)); lia.
Qed.

(** X15.  [execute(name, args)], which is what [server.py.name(...args)]
    runs for a name the proxy's target does not inherit, followed by
    the peer's response.  In any state the server can
    reach while the counter is below 2^53, the call (with arguments the
    debug line can print) sends exactly one envelope, a [call] with the
    next decimal id, the name and the array of arguments, and hands
    back a pending promise.  A [return] envelope with that id (and a
    value the debug line can print) then fulfils this promise with the
    value it carries, an [error] envelope rejects it with the error it
    carries; either way the table of pending calls is back to what it
    was before the call and nothing more is sent. *)
Theorem call_round_trip (r : revision) (s : Server) (name : string)
  (args : list value) (v : value) :
  reachable r s ->
  (_idCounter s < 2 ^ 53)%N ->
  printable (VArr args) ->
  printable v ->
  let callId := toString10 (_idCounter s + 1) in
  exists p s1,
    execute name (VArr args) s = (Ok p, s1) /\
    sent (history s1)
      = (sent (history s) ++ [call_envelope (VStr callId) (VStr name) (VArr args)])%list /\
    promise_of p s1 = Some Pending /\
    (exists s2,
       on_message r (Document (return_envelope (VStr callId) v)) s1 = (Ok tt, s2) /\
       promise_of p s2 = Some (Fulfilled v) /\
       _pendingReturns s2 = _pendingReturns s /\
       sent (history s2) = sent (history s1)) /\
    (exists s2,
       on_message r (Document (error_envelope (VStr callId) v)) s1 = (Ok tt, s2) /\
       promise_of p s2 = Some (Rejected (Thrown v)) /\
       _pendingReturns s2 = _pendingReturns s /\
       sent (history s2) = sent (history s1)).
Proof.
  intros Hr Hlt Hargs Hv callId.
  destruct (printable_Some v Hv) as (text & Htext).
  assert (exists joined, join args ", " = Some joined) as (joined & Hj).
  { unfold printable in Hargs. cbn [ToString] in Hargs. unfold join.
    destruct (strings_of ToString args); [eexists; reflexivity|congruence]. }
  assert (toString10 (add1 (_idCounter s)) = callId) as Hid.
  { unfold callId, add1. destruct (N.ltb_spec (_idCounter s) (2 ^ 53)); [reflexivity|lia]. }
  pose proof (fun y => fresh_call_id r s y Hr Hlt) as Hfresh.
  rewrite Hid in Hfresh. clearbody callId.
  set (x := mkPendingReturn callId (ResolveOf (length (promises s)))
              (RejectOf (length (promises s)))).
  rewrite execute_spec. cbv zeta. rewrite Hid, Hj.
  eexists. eexists. split; [reflexivity|].
  set (s1 := log_event _ (log_event _ (registered s))).
  assert (_pendingReturns s1 = (_pendingReturns s ++ x :: [])%list) as Hp
    by (unfold s1, x; cbn [log_event registered _pendingReturns]; now rewrite Hid).
  assert (promises s1 = (promises s ++ Pending :: [])%list) as Hq by reflexivity.
  assert (forall y, In y (_pendingReturns s) -> id y <> id x) as Hfirst
    by (intros y Hy; now apply Hfresh).
  repeat apply conj.
  - unfold s1. cbn [log_event registered history].
    rewrite !sent_app. simpl. now rewrite !app_nil_r.
  - unfold promise_of. rewrite Hq. apply nth_error_middle.
  - eexists. split.
    + rewrite on_message_return.
      apply (on_return_found s1 (_pendingReturns s) [] x v text Htext Hp Hfirst).
    + unfold promise_of.
      cbn [set_promises set_pendingReturns log_event promises _pendingReturns history].
      rewrite Hq. cbn [x resolve settle_with]. rewrite settle_at_pending.
      repeat apply conj.
      * apply nth_error_middle.
      * apply app_nil_r.
      * rewrite sent_app. simpl. apply app_nil_r.
  - eexists. split.
    + rewrite on_message_error.
      apply (on_error_found s1 (_pendingReturns s) [] x v text Htext Hp Hfirst).
    + unfold promise_of.
      cbn [set_promises set_pendingReturns log_event promises _pendingReturns history].
      rewrite Hq. cbn [x reject settle_with]. rewrite settle_at_pending.
      repeat apply conj.
      * apply nth_error_middle.
      * apply app_nil_r.
      * rewrite sent_app. simpl. apply app_nil_r.
Qed.

Lemma call_round_trip_witness :
  let s := snd (react direct_ws (Execute "f" (VArr [])) new_Server) in
  reachable direct_ws s /\
  (_idCounter s < 2 ^ 53)%N /\
  printable (VArr [VStr "world"]) /\
  printable (VStr "hello world") /\
  exists p s1,
    execute "getHello" (VArr [VStr "world"]) s = (Ok p, s1) /\
    sent (history s1)
      = (sent (history s)
         ++ [call_envelope (VStr "2") (VStr "getHello") (VArr [VStr "world"])])%list /\
    promise_of p s1 = Some Pending /\
    (exists s2,
       on_message direct_ws (Document (return_envelope (VStr "2") (VStr "hello world"))) s1
         = (Ok tt, s2) /\
       promise_of p s2 = Some (Fulfilled (VStr "hello world")) /\
       _pendingReturns s2 = _pendingReturns s /\
       sent (history s2) = sent (history s1)) /\
    (exists s2,
       on_message direct_ws (Document (error_envelope (VStr "2") (VStr "hello world"))) s1
         = (Ok tt, s2) /\
       promise_of p s2 = Some (Rejected (Thrown (VStr "hello world"))) /\
       _pendingReturns s2 = _pendingReturns s /\
       sent (history s2) = sent (history s1)).
Proof.
  assert (reachable direct_ws
            (snd (react direct_ws (Execute "f" (VArr [])) new_Server)))
    as Hr by (repeat constructor).
  split; [exact Hr|]. split; [reflexivity|].
  split; [discriminate|]. split; [discriminate|].
  apply (call_round_trip direct_ws _ "getHello" [VStr "world"] (VStr "hello world") Hr).
  - reflexivity.
  - discriminate.
  - discriminate.
Defined.

(** ** Messages the server fails on *)

Lemma on_return_fails (i v : value) (s s' : Server) (e : exn) :
  _on_return i v s = (Err e, s') ->
  (e = TypeError /\ s' = s) \/
  exists id_text text,
    e = Thrown (VStr ("no handler for call #" ++ id_text)) /\
    s' = log_event (EvDebug text) s.
Proof.
  rewrite on_return_unfold.
  destruct (ToString i) as [a|] eqn:Hi; [|intros [= <- <-]; now left].
  destruct (ToString v) as [b|]; [|intros [= <- <-]; now left].
  unfold bind. set (s1 := log_event _ s).
  destruct (popReturn_cases i s1) as [E|(P & x & R & _ & _ & _ & E)]; rewrite E.
  - intros [= <- <-]. right. exists a. eexists.
    unfold no_handler. rewrite Hi. now split.
  - discriminate.
Qed.

Lemma on_error_fails (i v : value) (s s' : Server) (e : exn) :
  _on_error i v s = (Err e, s') ->
  (e = TypeError /\ s' = s) \/
  exists id_text text,
    e = Thrown (VStr ("no handler for call #" ++ id_text)) /\
    s' = log_event (EvDebug text) s.
Proof.
  rewrite on_error_unfold.
  destruct (ToString i) as [a|] eqn:Hi; [|intros [= <- <-]; now left].
  destruct (ToString v) as [b|]; [|intros [= <- <-]; now left].
  unfold bind. set (s1 := log_event _ s).
  destruct (popReturn_cases i s1) as [E|(P & x & R & _ & _ & _ & E)]; rewrite E.
  - intros [= <- <-]. right. exists a. eexists.
    unfold no_handler. rewrite Hi. now split.
  - discriminate.
Qed.

Lemma on_call_fails (i n a : value) (s s' : Server) (e : exn) :
  _on_call i n a s = (Err e, s') ->
  (exists name fn, ToString n = Some name /\ obj_get name (_fns s) = Some fn) \/
  (e = TypeError /\ s' = s) \/
  exists name text,
    obj_get name (_fns s) = None /\
    e = Thrown (VStr ("function '" ++ name
                      ++ "' is not found, registered functions: ["
                      ++ String.concat "," (Object_keys (_fns s)) ++ "]")) /\
    s' = log_event (EvDebug text) s.
Proof.
  rewrite on_call_unfold.
  destruct (ToString i) as [id_text|]; [|intros [= <- <-]; right; now left].
  destruct (ToString n) as [name|]; [|intros [= <- <-]; right; now left].
  destruct a; try (intros [= <- <-]; right; now left).
  destruct (join items ", ") as [joined|]; [|intros [= <- <-]; right; now left].
  cbv zeta.
  destruct (obj_get name (_fns s)) as [fn|] eqn:G.
  - intros _. left. now exists name, fn.
  - intros [= <- <-]. right. right. exists name. eexists. now repeat split.
Qed.

(** X16.  A message handler that fails without a function having been
    called has done nothing but, at most, write one debug line: no
    pending call has been removed, no promise settled, nothing sent, no
    function registered.  What it fails with is one of: the SyntaxError
    of [JSON.parse]; a TypeError (the document is [null], the [args] of
    a call are not an array, or a debug line cannot be built);
    [no handler for call #id], for a response; or
    [function 'name' is not found, ...], for a call of a name that is
    not registered.  The registry has the prototype it was created
    with, and the message is not a call of a name the registry inherits
    from it (such a call runs the inherited method).  Of a failure
    after a registered function has been called nothing is said. *)
Theorem failed_message_changes_nothing (r : revision) (d : MessageData)
  (s s' : Server) (e : exn) :
  _fns_proto s = None ->
  (forall name, calls (WsMessage d) name = true -> inherited name = false) ->
  on_message r d s = (Err e, s') ->
  (exists name fn,
     calls (WsMessage d) name = true /\ obj_get name (_fns s) = Some fn) \/
  ((s' = s \/ exists text, s' = log_event (EvDebug text) s) /\
   (e = SyntaxError \/ e = TypeError \/
    (exists i, e = Thrown (VStr ("no handler for call #" ++ i))) \/
    (exists n, obj_get n (_fns s) = None /\
       e = Thrown (VStr ("function '" ++ n
                         ++ "' is not found, registered functions: ["
                         ++ String.concat "," (Object_keys (_fns s)) ++ "]"))))).
Proof.
  intros _ _. destruct d as [text|msg].
  - intros H. assert (on_message r (Malformed text) s = (Err SyntaxError, s)) as E
      by (destruct r; reflexivity).
    rewrite E in H. injection H as <- <-. right. split; now left.
  - rewrite on_message_dispatch.
    set (oc := match r with
               | bootstrap_js => Bootstrap._on_close
               | direct_ws => Direct._on_normal_close
               end).
    assert (forall s0, fst (oc s0) = Ok tt) as Hoc by (intros s0; now destruct r).
    clearbody oc. unfold dispatch, bind, prop, calls.
    destruct msg; simpl;
      try (intros [= <- <-]; right; split; [now left|right; now left]);
      try discriminate.
    match goal with
    | |- context [strict_eq ?t (VStr "return")] =>
        destruct (strict_eq t (VStr "return")) eqn:Er;
          [|destruct (strict_eq t (VStr "call")) eqn:Ec;
              [|destruct (strict_eq t (VStr "error"));
                  [|destruct (strict_eq t (VStr "close"))]]]
    end.
    + intros H. apply on_return_fails in H. right.
      destruct H as [[-> ->]|(a & text & -> & ->)].
      * split; [now left|right; now left].
      * split; [right; now exists text|]. right. right. left. now exists a.
    + intros H. apply on_call_fails in H.
      destruct H as [(name & fn & Hn & G)|[[-> ->]|(name & text & G & -> & ->)]].
      * left. exists name, fn. split; [|exact G].
        cbn [andb]. rewrite Hn. apply String.eqb_refl.
      * right. split; [now left|right; now left].
      * right. split; [right; now exists text|]. right. right. right.
        exists name. now split.
    + intros H. apply on_error_fails in H. right.
      destruct H as [[-> ->]|(a & text & -> & ->)].
      * split; [now left|right; now left].
      * split; [right; now exists text|]. right. right. left. now exists a.
    + intros H. specialize (Hoc s). destruct (oc s) as [[[]|e0] s0]; simpl in *.
      * discriminate.
      * discriminate.
    + discriminate.
Qed.

Lemma failed_message_changes_nothing_witness :
  let s := snd (execute "f" (VArr []) new_Server) in
  let d := Document (return_envelope (VStr "7") (VObj [("toString", VNum "1")])) in
  _fns_proto s = None /\
  (forall name, calls (WsMessage d) name = true -> inherited name = false) /\
  on_message direct_ws d s = (Err TypeError, s) /\
  ((exists name fn,
      calls (WsMessage d) name = true /\ obj_get name (_fns s) = Some fn) \/
   ((s = s \/ exists text, s = log_event (EvDebug text) s) /\
    (TypeError = SyntaxError \/ TypeError = TypeError \/
     (exists i, TypeError = Thrown (VStr ("no handler for call #" ++ i))) \/
     (exists n, obj_get n (_fns s) = None /\
        TypeError = Thrown (VStr ("function '" ++ n
                          ++ "' is not found, registered functions: ["
                          ++ String.concat "," (Object_keys (_fns s)) ++ "]")))))).
Proof.
  split; [reflexivity|]. split; [intros name H; discriminate H|].
  split; [reflexivity|].
  apply (failed_message_changes_nothing direct_ws
           (Document (return_envelope (VStr "7") (VObj [("toString", VNum "1")])))
           (snd (execute "f" (VArr []) new_Server))).
  - reflexivity.
  - intros name H. discriminate H.
  - reflexivity.
Defined.

(** ** Where the numbering stops *)

(** X17.  The counter is a double: at 2^53 adding one no longer changes it.
    From then on every call is registered under the same id,
    9007199254740992, and a response with that id (and a value the
    debug line can print) goes to the oldest pending call that bears
    it; the younger one stays pending. *)
Theorem saturated_counter_reuses_id (r : revision) (s : Server)
  (name1 name2 : string) (args1 args2 : list value) (v : value) :
  _idCounter s = (2 ^ 53)%N ->
  (forall y, In y (_pendingReturns s) -> id y <> "9007199254740992") ->
  printable v ->
  let s2 := snd (execute name2 (VArr args2) (snd (execute name1 (VArr args1) s))) in
  let p := length (promises s) in
  let x1 := mkPendingReturn "9007199254740992" (ResolveOf p) (RejectOf p) in
  let x2 := mkPendingReturn "9007199254740992" (ResolveOf (S p)) (RejectOf (S p)) in
  _idCounter s2 = (2 ^ 53)%N /\
  _pendingReturns s2 = (_pendingReturns s ++ [x1; x2])%list /\
  exists s3,
    on_message r (Document (return_envelope (VStr "9007199254740992") v)) s2
      = (Ok tt, s3) /\
    _pendingReturns s3 = (_pendingReturns s ++ [x2])%list /\
    promise_of p s3 = Some (Fulfilled v) /\
    promise_of (S p) s3 = Some Pending.
Proof.
  intros Hc Hfresh Hv s2 p x1 x2.
  destruct (printable_Some v Hv) as (text & Htext).
  assert (forall n, n = (2 ^ 53)%N -> add1 n = n) as Hstuck
    by (intros n ->; reflexivity).
  assert (toString10 (2 ^ 53) = "9007199254740992") as Hid by reflexivity.
  set (s1 := snd (execute name1 (VArr args1) s)) in *.
  destruct (execute_footprint name1 (VArr args1) s) as (Hp1 & Hq1 & _).
  destruct (execute_history name1 (VArr args1) s) as (? & _ & _ & Hc1).
  destruct (execute_footprint name2 (VArr args2) s1) as (Hp2 & Hq2 & _).
  destruct (execute_history name2 (VArr args2) s1) as (? & _ & _ & Hc2).
  fold s1 in Hp1, Hq1, Hc1. fold s2 in Hp2, Hq2, Hc2.
  rewrite (Hstuck _ Hc) in Hc1, Hp1. rewrite Hc in Hc1, Hp1.
  rewrite Hc1, (Hstuck _ eq_refl) in Hc2, Hp2.
  rewrite Hid in Hp1, Hp2.
  rewrite Hq1, length_app, Nat.add_1_r in Hp2. fold p in Hp1, Hp2.
  rewrite Hp1, <- app_assoc in Hp2. rewrite Hq1, <- app_assoc in Hq2.
  simpl app in Hp2, Hq2. fold x1 x2 in Hp2.
  split; [exact Hc2|]. split; [exact Hp2|].
  eexists. split.
  - rewrite on_message_return.
    apply (on_return_found s2 (_pendingReturns s) [x2] x1 v text Htext Hp2 Hfresh).
  - unfold promise_of.
    cbn [set_promises set_pendingReturns log_event promises _pendingReturns].
    rewrite Hq2. unfold x1. cbn [resolve settle_with]. unfold p.
    change ([Pending] ++ [Pending])%list with [Pending; Pending].
    rewrite settle_at_pending.
    repeat apply conj.
    + reflexivity.
    + apply nth_error_middle.
    + rewrite <- Nat.add_1_r, nth_error_app_plus. reflexivity.
Qed.

Lemma saturated_counter_reuses_id_witness :
  let s := set_idCounter (2 ^ 53) new_Server in
  let s2 := snd (execute "g" (VArr []) (snd (execute "f" (VArr []) s))) in
  let x2 := mkPendingReturn "9007199254740992" (ResolveOf 1) (RejectOf 1) in
  _idCounter s = (2 ^ 53)%N /\
  (forall y, In y (_pendingReturns s) -> id y <> "9007199254740992") /\
  printable (VStr "late") /\
  _idCounter s2 = (2 ^ 53)%N /\
  exists s3,
    on_message bootstrap_js
      (Document (return_envelope (VStr "9007199254740992") (VStr "late"))) s2
      = (Ok tt, s3) /\
    _pendingReturns s3 = [x2] /\
    promise_of 0 s3 = Some (Fulfilled (VStr "late")) /\
    promise_of 1 s3 = Some Pending.
Proof.
  assert (printable (VStr "late")) as Hv by discriminate.
  split; [reflexivity|]. split; [intros y []|]. split; [exact Hv|].
  destruct (saturated_counter_reuses_id bootstrap_js
              (set_idCounter (2 ^ 53) new_Server) "f" "g" [] [] (VStr "late")
              eq_refl (fun y (H : In y []) => match H with end) Hv)
    as (Hc & _ & H).
  split; [exact Hc|exact H].
Defined.

(** ** Payloads the debug line cannot print *)

(** X18.  A [return] or [error] envelope whose id or payload cannot be
    converted to a string (a JSON object with a key [toString] of its
    own, or an array that holds one) is not delivered: building the
    debug line throws a TypeError before the entry is looked up, and
    the server is unchanged; a call pending under that id stays in the
    table with its promise pending. *)
Theorem unprintable_response_is_not_delivered (r : revision) (s : Server)
  (i v : value) :
  ToString i = None \/ ToString v = None ->
  on_message r (Document (return_envelope i v)) s = (Err TypeError, s) /\
  on_message r (Document (error_envelope i v)) s = (Err TypeError, s).
Proof.
  intros H. rewrite on_message_return, on_message_error.
  rewrite on_return_unfold, on_error_unfold.
  destruct H as [-> | ->]; [now split|].
  destruct (ToString i); now split.
Qed.

Lemma unprintable_response_is_not_delivered_witness :
  let s := snd (execute "f" (VArr []) new_Server) in
  let v := VObj [("toString", VNum "1")] in
  (ToString (VStr "1") = None \/ ToString v = None) /\
  on_message bootstrap_js (Document (return_envelope (VStr "1") v)) s
    = (Err TypeError, s) /\
  on_message bootstrap_js (Document (error_envelope (VStr "1") v)) s
    = (Err TypeError, s) /\
  _pendingReturns s = [mkPendingReturn "1" (ResolveOf 0) (RejectOf 0)] /\
  promise_of 0 s = Some Pending.
Proof.
  split; [right; reflexivity|].
  destruct (unprintable_response_is_not_delivered bootstrap_js
              (snd (execute "f" (VArr []) new_Server))
              (VStr "1") (VObj [("toString", VNum "1")]) (or_intror eq_refl))
    as [E1 E2].
  repeat apply conj; [exact E1|exact E2|reflexivity|reflexivity].
Defined.

(** ** The name [__proto__] *)

(** X19.  A function whose name is [__proto__] cannot be exposed by
    itself: [mapping[fnOrFns.name] = fnOrFns] sets the prototype of the
    fresh mapping and gives it no entry, so [expose] registers nothing,
    throws nothing and leaves the server as it was.  In a mapping, an
    entry of that name passes the duplicate check and replaces the
    prototype of the registry; no name is registered by it. *)
Theorem proto_named_function_is_not_registered (s : Server) (f : Function) :
  plain_registry s ->
  (fn_name f = "__proto__" -> expose (OneFunction f) s = (Ok tt, s)) /\
  expose (Mapping [("__proto__", f)]) s = (Ok tt, set_fns_proto (Some f) s) /\
  _fns (snd (expose (Mapping [("__proto__", f)]) s)) = _fns s.
Proof.
  intros [_ Hplain].
  assert (hasOwnProperty (_fns s) "__proto__" = false) as Hfree.
  { apply hasOwnProperty_false.
    destruct (obj_get "__proto__" (_fns s)) as [g|] eqn:E; [|reflexivity].
    apply obj_get_In_key in E. now destruct (Hplain _ E) as [H _]. }
  assert (expose (Mapping [("__proto__", f)]) s
          = (Ok tt, set_fns_proto (Some f) s)) as E.
  { unfold expose. rewrite Object_entries_singleton. cbn [forEach].
    destruct (expose_entry_cases "__proto__" f s) as [E|[[_ E]|(Hc & _)]].
    - unfold expose_entry, bind, get in E. cbv beta iota in E.
      rewrite Hfree in E. discriminate E.
    - unfold bind. now rewrite E.
    - now destruct Hc. }
  repeat apply conj.
  - intros Hname. unfold expose. now rewrite Hname.
  - exact E.
  - now rewrite E.
Qed.

Lemma proto_named_function_is_not_registered_witness :
  let f := mkFunction "__proto__" (fun _ => Returns VNull) in
  plain_registry new_Server /\
  expose (OneFunction f) new_Server = (Ok tt, new_Server) /\
  _fns (snd (expose (Mapping [("__proto__", f)]) new_Server)) = [].
Proof.
  assert (plain_registry new_Server) as Hreg by (split; [reflexivity|intros k []]).
  split; [exact Hreg|].
  destruct (proto_named_function_is_not_registered new_Server
              (mkFunction "__proto__" (fun _ => Returns VNull)) Hreg)
    as (E1 & _ & E3).
  split; [exact (E1 eq_refl)|exact E3].
Defined.
